(** * The eligibility validation engine (assets/js/validation-engine.js)

    A shallow embedding of [ValidationEngine]: the condition evaluator
    ([evaluateCondition], [describeExpectation]), the rule tree walker
    ([evaluateRule]), the aggregation done by [validate] and the audit
    event built by [createEvent].

    JavaScript values are restricted to the primitives that attribute
    mappings and rule operands hold (undefined, null, booleans, numbers,
    strings).  Numbers are IEEE-754 binary64 values, represented with the
    [spec_float] type of the standard library.  A thrown exception is an
    explicit [Throw] completion.  Output written to the console
    ([console.warn], [console.log]) and the optional [eventCallback] are
    not part of the model.

    The development also covers the rest of the engine object (its
    constructor and its log), the class [ValidationResult] and the helpers
    of [RulesetViewer] that compute without the document: the status of a
    rule, the status of the compact view, clause numbers and the
    formatting of keys, values, operators and statuses. *)

From Stdlib Require Import ZArith String Ascii List Bool Lia.
From Stdlib Require Import Floats.SpecFloat DecimalString.
From Stdlib Require DecimalZ DecimalPos.
Import ListNotations.
Local Open Scope string_scope.

(** ** JavaScript values *)

Definition number := spec_float.

Definition NaN : number := S754_nan.

(** The number written as the integer literal [z]. *)
Definition num (z : Z) : number := binary_normalize 53 1024 z 0 false.

Inductive JSValue :=
| JSUndefined
| JSNull
| JSBool (b : bool)
| JSNumber (n : number)
| JSString (s : string).

(** Completion of a computation: a value, or a thrown exception. *)
Inductive Exception :=
| SyntaxError (pattern : string).

Inductive completion (A : Type) :=
| Normal (a : A)
| Throw (e : Exception).
Arguments Normal {A} a.
Arguments Throw {A} e.

Definition bind {A B} (c : completion A) (k : A -> completion B) : completion B :=
  match c with
  | Normal a => k a
  | Throw e => Throw e
  end.

Notation "x <- c ;; k" := (bind c (fun x => k))
  (at level 61, c at next level, right associativity).

(** The builtins of the host whose full definition is outside this
    development: the StringToNumber grammar, the digit generation of
    Number::toString for values that are not integers of magnitude up to
    2^53 (those print all their digits), and the
    regular expression engine ([RegExp_new] is [None] when the constructor
    throws a SyntaxError). *)
Class Host := {
  StringToNumber : string -> number;
  NumberToString_general : number -> string;
  RegExp : Type;
  RegExp_new : string -> option RegExp;
  RegExp_test : RegExp -> string -> bool
}.

(** Relational operators on numbers; every comparison with NaN is false. *)
Definition js_lt (a b : number) : bool := SFltb a b.
Definition js_le (a b : number) : bool := SFleb a b.
Definition js_gt (a b : number) : bool := SFltb b a.
Definition js_ge (a b : number) : bool := SFleb b a.

(** The integer denoted by mantissa [m] and exponent [e], if it is one. *)
Definition integer_value (m : positive) (e : Z) : option Z :=
  if (0 <=? e)%Z then Some (Z.pos m * 2 ^ e)%Z
  else
    let d := (2 ^ (- e))%Z in
    if (Z.pos m mod d =? 0)%Z then Some (Z.pos m / d)%Z else None.

Definition decimal (z : Z) : string := NilZero.string_of_int (Z.to_int z).

Section Language.
Context `{Host}.

(** Number::toString(x), radix 10. *)
Definition Number_toString (x : number) : string :=
  match x with
  | S754_nan => "NaN"
  | S754_zero _ => "0"
  | S754_infinity false => "Infinity"
  | S754_infinity true => "-Infinity"
  | S754_finite s m e =>
      match integer_value m e with
      | Some z =>
          if (z <=? 2 ^ 53)%Z
          then (if s then "-" else "") ++ decimal z
          else NumberToString_general x
      | None => NumberToString_general x
      end
  end.

(** [Number(v)], [String(v)] and the conversion of a template
    substitution, and the truthiness test of [if] and [||]. *)
Definition ToNumber (v : JSValue) : number :=
  match v with
  | JSUndefined => NaN
  | JSNull => S754_zero false
  | JSBool true => num 1
  | JSBool false => S754_zero false
  | JSNumber n => n
  | JSString s => StringToNumber s
  end.

Definition ToString (v : JSValue) : string :=
  match v with
  | JSUndefined => "undefined"
  | JSNull => "null"
  | JSBool true => "true"
  | JSBool false => "false"
  | JSNumber n => Number_toString n
  | JSString s => s
  end.

Definition ToBoolean (v : JSValue) : bool :=
  match v with
  | JSUndefined | JSNull => false
  | JSBool b => b
  | JSNumber n =>
      match n with
      | S754_nan | S754_zero _ => false
      | _ => true
      end
  | JSString s => negb (s =? "")
  end.

(** [a === b] *)
Definition IsStrictlyEqual (a b : JSValue) : bool :=
  match a, b with
  | JSUndefined, JSUndefined => true
  | JSNull, JSNull => true
  | JSBool x, JSBool y => Bool.eqb x y
  | JSNumber x, JSNumber y => SFeqb x y
  | JSString x, JSString y => (x =? y)
  | _, _ => false
  end.

(** SameValueZero, the equality of [Array.prototype.includes]. *)
Definition SameValueZero (a b : JSValue) : bool :=
  match a, b with
  | JSNumber S754_nan, JSNumber S754_nan => true
  | _, _ => IsStrictlyEqual a b
  end.

Definition includes (arr : list JSValue) (v : JSValue) : bool :=
  existsb (fun x => SameValueZero x v) arr.

(** [arr.join(sep)]: undefined and null elements are printed empty. *)
Definition join_element (v : JSValue) : string :=
  match v with
  | JSUndefined | JSNull => ""
  | _ => ToString v
  end.

Fixpoint join (sep : string) (arr : list JSValue) : string :=
  match arr with
  | [] => ""
  | [v] => join_element v
  | v :: rest => join_element v ++ sep ++ join sep rest
  end.

(** [a || b] on an optional string and a string. *)
Definition or_else (a : option string) (b : string) : string :=
  match a with
  | Some s => if s =? "" then b else s
  | None => b
  end.
End Language.

(** ** Data model *)

(** An object with string keys, as the list of its own properties in
    property order; reading a key that is not there gives undefined
    (properties inherited from a prototype are not modelled). *)
Definition Attributes := list (string * JSValue).

Fixpoint get (attributes : Attributes) (key : string) : JSValue :=
  match attributes with
  | [] => JSUndefined
  | (k, v) :: rest => if k =? key then v else get rest key
  end.

Definition Object_keys (o : Attributes) : list string := map fst o.

Module Rule.
#[local] Unset Elimination Schemes.
Inductive t := make {
  id : option string;
  key : string;
  operator : string;
  value : JSValue;
  values : option (list JSValue);
  min : JSValue;
  max : JSValue;
  unit : option string;
  requirement : option string;
  label : option string;
  description : option string;
  source_url : option string;
  conditions : option (list t);
  any_of : option (list t)
}.
End Rule.

Module Ruleset.
Record t := make {
  service_id : option string;
  name : option string;
  jurisdiction_id : option string;
  effective_date : option string;
  rules : list Rule.t
}.
End Ruleset.

(** The twelve operators of the [switch] in [evaluateCondition]. *)
Inductive Operator :=
| op_equals | op_not_equals
| op_less_than | op_less_than_or_equal
| op_greater_than | op_greater_than_or_equal
| op_in | op_not_in | op_between
| op_exists | op_not_exists | op_matches.

Definition operator_table : list (string * Operator) :=
  [ ("equals", op_equals); ("not_equals", op_not_equals);
    ("less_than", op_less_than);
    ("less_than_or_equal", op_less_than_or_equal);
    ("greater_than", op_greater_than);
    ("greater_than_or_equal", op_greater_than_or_equal);
    ("in", op_in); ("not_in", op_not_in); ("between", op_between);
    ("exists", op_exists); ("not_exists", op_not_exists);
    ("matches", op_matches) ].

Definition recognized_operators : list string := map fst operator_table.

Fixpoint lookup_operator (table : list (string * Operator)) (s : string)
  : option Operator :=
  match table with
  | [] => None
  | (name, op) :: rest => if name =? s then Some op else lookup_operator rest s
  end.

(** The [case] label that the [switch] selects, [None] for [default]. *)
Definition switch_case (s : string) : option Operator :=
  lookup_operator operator_table s.

(** ** The validation result and its records *)

Module Passed.
Record t := make {
  id : option string;
  key : string;
  label : option string;
  value : JSValue;
  satisfied_by : option string
}.
End Passed.

Module Failed.
Record t := make {
  id : option string;
  key : string;
  label : option string;
  value : JSValue;
  expected : JSValue;
  message : string;
  severity : option string
}.
End Failed.

Module Skipped.
Record t := make {
  id : option string;
  key : string;
  label : option string;
  reason : string;
  message : string
}.
End Skipped.

Module Error.
Record t := make {
  field : string;
  message : string
}.
End Error.

Module Result.
Record t := make {
  valid : bool;
  service_id : option string;
  timestamp : string;
  changes : Attributes;
  errors : list Error.t;
  passed : list Passed.t;
  failed : list Failed.t;
  skipped : list Skipped.t;
  data : Ruleset.t;
  duration_ms : option Z
}.

(** [result.passed.push(p)] and its siblings. *)
Definition push_passed (p : Passed.t) (r : t) : t :=
  make (valid r) (service_id r) (timestamp r) (changes r) (errors r)
       (passed r ++ [p]) (failed r) (skipped r) (data r) (duration_ms r).

Definition push_failed (f : Failed.t) (r : t) : t :=
  make (valid r) (service_id r) (timestamp r) (changes r) (errors r)
       (passed r) (failed r ++ [f]) (skipped r) (data r) (duration_ms r).

Definition push_skipped (s : Skipped.t) (r : t) : t :=
  make (valid r) (service_id r) (timestamp r) (changes r) (errors r)
       (passed r) (failed r) (skipped r ++ [s]) (data r) (duration_ms r).

Definition push_error (e : Error.t) (r : t) : t :=
  make (valid r) (service_id r) (timestamp r) (changes r) (errors r ++ [e])
       (passed r) (failed r) (skipped r) (data r) (duration_ms r).

Definition set_valid (b : bool) (r : t) : t :=
  make b (service_id r) (timestamp r) (changes r) (errors r)
       (passed r) (failed r) (skipped r) (data r) (duration_ms r).

Definition set_duration_ms (d : Z) (r : t) : t :=
  make (valid r) (service_id r) (timestamp r) (changes r) (errors r)
       (passed r) (failed r) (skipped r) (data r) (Some d).
End Result.

Module Event.
Record t := make {
  type : string;
  timestamp : string;
  service_id : option string;
  valid : bool;
  passed_count : nat;
  failed_count : nat;
  skipped_count : nat;
  duration_ms : option Z;
  errors : list Error.t;
  attributes_provided : list string
}.
End Event.

(** ** The condition evaluator *)

Section Engine.
Context `{Host}.

(** The source text handed to [new RegExp(v)]: an undefined pattern is
    the empty pattern, any other value is converted to a string. *)
Definition pattern_source (v : JSValue) : string :=
  match v with
  | JSUndefined => "(?:)"
  | _ => ToString v
  end.

(** [rule.values?.includes(value)] *)
Definition optional_includes (values : option (list JSValue)) (value : JSValue)
  : JSValue :=
  match values with
  | Some arr => JSBool (includes arr value)
  | None => JSUndefined
  end.

Definition evaluateCondition (rule : Rule.t) (value : JSValue)
           (attributes : Attributes) : completion JSValue :=
  match switch_case (Rule.operator rule) with
  | Some op_equals =>
      Normal (JSBool (IsStrictlyEqual value (Rule.value rule)))
  | Some op_not_equals =>
      Normal (JSBool (negb (IsStrictlyEqual value (Rule.value rule))))
  | Some op_less_than =>
      Normal (JSBool (js_lt (ToNumber value) (ToNumber (Rule.value rule))))
  | Some op_less_than_or_equal =>
      Normal (JSBool (js_le (ToNumber value) (ToNumber (Rule.value rule))))
  | Some op_greater_than =>
      Normal (JSBool (js_gt (ToNumber value) (ToNumber (Rule.value rule))))
  | Some op_greater_than_or_equal =>
      Normal (JSBool (js_ge (ToNumber value) (ToNumber (Rule.value rule))))
  | Some op_in =>
      Normal (optional_includes (Rule.values rule) value)
  | Some op_not_in =>
      Normal (JSBool (negb (ToBoolean (optional_includes (Rule.values rule) value))))
  | Some op_between =>
      let num := ToNumber value in
      Normal (JSBool (js_ge num (ToNumber (Rule.min rule))
                      && js_le num (ToNumber (Rule.max rule))))
  | Some op_exists =>
      Normal (JSBool (negb (IsStrictlyEqual value JSUndefined)
                      && negb (IsStrictlyEqual value JSNull)))
  | Some op_not_exists =>
      Normal (JSBool (IsStrictlyEqual value JSUndefined
                      || IsStrictlyEqual value JSNull))
  | Some op_matches =>
      match RegExp_new (pattern_source (Rule.value rule)) with
      | Some re => Normal (JSBool (RegExp_test re (ToString value)))
      | None => Throw (SyntaxError (pattern_source (Rule.value rule)))
      end
  | None => Normal (JSBool false)
  end.

(** [values?.join(', ')] inside a template. *)
Definition optional_join (values : option (list JSValue)) : string :=
  match values with
  | Some arr => join ", " arr
  | None => "undefined"
  end.

Definition describeExpectation (rule : Rule.t) : JSValue :=
  let value := Rule.value rule in
  let unitStr :=
    match Rule.unit rule with
    | Some u => if u =? "" then "" else " " ++ u
    | None => ""
    end in
  match switch_case (Rule.operator rule) with
  | Some op_equals => JSString (ToString value ++ unitStr)
  | Some op_not_equals => JSString ("not " ++ ToString value ++ unitStr)
  | Some op_less_than => JSString ("< " ++ ToString value ++ unitStr)
  | Some op_less_than_or_equal => JSString ("<= " ++ ToString value ++ unitStr)
  | Some op_greater_than => JSString ("> " ++ ToString value ++ unitStr)
  | Some op_greater_than_or_equal =>
      JSString (">= " ++ ToString value ++ unitStr)
  | Some op_in =>
      JSString ("one of [" ++ optional_join (Rule.values rule) ++ "]")
  | Some op_not_in =>
      JSString ("not one of [" ++ optional_join (Rule.values rule) ++ "]")
  | Some op_between =>
      JSString ("between " ++ ToString (Rule.min rule) ++ " and "
                ++ ToString (Rule.max rule) ++ unitStr)
  | Some op_exists => JSString "exists"
  | Some op_not_exists => JSString "does not exist"
  | Some op_matches | None => value
  end.

(** ** The rule tree walker *)

(** [rule.requirement === name]; an absent requirement equals no name. *)
Definition requirement_is (rule : Rule.t) (name : string) : bool :=
  match Rule.requirement rule with
  | Some r => r =? name
  | None => false
  end.

(** [rule.any_of.some(alt => evaluateCondition(alt, attributes[alt.key],
    attributes))]: alternatives are tried in order up to the first one
    whose condition is truthy. *)
Fixpoint some_alternative (alternatives : list Rule.t) (attributes : Attributes)
  : completion bool :=
  match alternatives with
  | [] => Normal false
  | alt :: rest =>
      let altValue := get attributes (Rule.key alt) in
      b <- evaluateCondition alt altValue attributes ;;
      if ToBoolean b then Normal true else some_alternative rest attributes
  end.

(** The guard [rule.any_of && rule.any_of.length > 0] and the call of
    [some] under it. *)
Definition anyPassed (rule : Rule.t) (attributes : Attributes) : completion bool :=
  match Rule.any_of rule with
  | Some alternatives =>
      if (0 <? length alternatives)%nat
      then some_alternative alternatives attributes
      else Normal false
  | None => Normal false
  end.

Definition skipped_record (rule : Rule.t) : Skipped.t :=
  Skipped.make (Rule.id rule) (Rule.key rule) (Rule.label rule)
    "missing_attribute"
    ("Missing required attribute: " ++ Rule.key rule).

Definition passed_record (rule : Rule.t) (value : JSValue) : Passed.t :=
  Passed.make (Rule.id rule) (Rule.key rule) (Rule.label rule) value None.

Definition alternative_record (rule : Rule.t) (value : JSValue) : Passed.t :=
  Passed.make (Rule.id rule) (Rule.key rule) (Rule.label rule) value
    (Some "alternative").

Definition disqualifying_record (rule : Rule.t) (value : JSValue) : Failed.t :=
  Failed.make (Rule.id rule) (Rule.key rule) (Rule.label rule) value
    (describeExpectation rule)
    ("Disqualifying condition: " ++ or_else (Rule.label rule) (Rule.key rule))
    (Some "disqualifying").

Definition failed_record (rule : Rule.t) (value : JSValue) : Failed.t :=
  Failed.make (Rule.id rule) (Rule.key rule) (Rule.label rule) value
    (describeExpectation rule)
    ("Requirement not met: " ++ or_else (Rule.label rule) (Rule.key rule))
    None.

Definition error_record (rule : Rule.t) : Error.t :=
  Error.make (Rule.key rule)
    (or_else (Rule.description rule)
       ("Does not meet " ++ or_else (Rule.label rule) (Rule.key rule)
        ++ " requirement")).

(** The end of [evaluateRule], reached when the condition failed and no
    alternative stood in for it. *)
Definition record_failure (rule : Rule.t) (value : JSValue) (result : Result.t)
  : Result.t :=
  if requirement_is rule "disqualifying" then
    Result.push_error (error_record rule)
      (Result.push_failed (disqualifying_record rule value) result)
  else if negb (requirement_is rule "optional") then
    Result.push_error (error_record rule)
      (Result.push_failed (failed_record rule value) result)
  else result.

Fixpoint evaluateRule (rule : Rule.t) (attributes : Attributes)
         (result : Result.t) {struct rule} : completion Result.t :=
  let key := Rule.key rule in
  let value := get attributes key in
  if IsStrictlyEqual value JSUndefined
     && negb (Rule.operator rule =? "not_exists")
  then
    if negb (requirement_is rule "optional")
    then Normal (Result.push_skipped (skipped_record rule) result)
    else Normal result
  else
    passed <- evaluateCondition rule value attributes ;;
    if ToBoolean passed then
      let result := Result.push_passed (passed_record rule value) result in
      match Rule.conditions rule with
      | Some conditions =>
          (fix each (cs : list Rule.t) (result : Result.t) : completion Result.t :=
             match cs with
             | [] => Normal result
             | condition :: cs' =>
                 result' <- evaluateRule condition attributes result ;;
                 each cs' result'
             end) conditions result
      | None => Normal result
      end
    else
      alternative <- anyPassed rule attributes ;;
      if alternative
      then Normal (Result.push_passed (alternative_record rule value) result)
      else Normal (record_failure rule value result).

(** [for (const rule of rules) this.evaluateRule(rule, attributes, result)] *)
Fixpoint evaluateRules (rules : list Rule.t) (attributes : Attributes)
         (result : Result.t) : completion Result.t :=
  match rules with
  | [] => Normal result
  | rule :: rest =>
      result' <- evaluateRule rule attributes result ;;
      evaluateRules rest attributes result'
  end.

(** ** The audit event and [validate] *)

Definition createEvent (result : Result.t) : Event.t :=
  Event.make "validation"
    (Result.timestamp result)
    (Result.service_id result)
    (Result.valid result)
    (length (Result.passed result))
    (length (Result.failed result))
    (length (Result.skipped result))
    (Result.duration_ms result)
    (map (fun e => Error.make (Error.field e) (Error.message e))
         (Result.errors result))
    (Object_keys (Result.changes result)).

(** The engine object: its [logEvents] option and its event log. *)
Record Engine := {
  logEvents : bool;
  eventLog : list Event.t
}.

Definition logEvent (engine : Engine) (event : Event.t) : Engine :=
  {| logEvents := logEvents engine;
     eventLog := eventLog engine ++ [event] |}.

(** The readings of the clock during one call of [validate]:
    [Date.now()] on entry, [new Date().toISOString()], and [Date.now()]
    after the walk. *)
Record Clock := {
  startTime : Z;
  isoTime : string;
  endTime : Z
}.

Definition validate (engine : Engine) (clock : Clock) (ruleset : Ruleset.t)
           (attributes : Attributes) : completion (Result.t * Engine) :=
  let result :=
    Result.make true (Ruleset.service_id ruleset) (isoTime clock)
      attributes [] [] [] [] ruleset None in
  result <- evaluateRules (Ruleset.rules ruleset) attributes result ;;
  let result :=
    Result.set_valid (length (Result.failed result) =? 0)%nat result in
  let result :=
    Result.set_duration_ms (endTime clock - startTime clock)%Z result in
  let event := createEvent result in
  let engine := if logEvents engine then logEvent engine event else engine in
  Normal (result, engine).
End Engine.

(** ** A host to run the engine on concrete inputs

    [literal_host] decides the builtins on the inputs that the examples
    below use and on nothing more: a string of decimal digits converts to
    the integer it writes and a string holding any other character to NaN;
    the pattern ["("] is rejected by the constructor (an unterminated
    group) and a pattern of letters and digits is searched for in the
    input. *)

Definition is_digit (c : ascii) : bool :=
  let n := nat_of_ascii c in (48 <=? n)%nat && (n <=? 57)%nat.

Fixpoint digits_value (acc : Z) (s : string) : option Z :=
  match s with
  | EmptyString => Some acc
  | String c rest =>
      if is_digit c
      then digits_value (10 * acc + Z.of_nat (nat_of_ascii c - 48))%Z rest
      else None
  end.

Definition literal_number (s : string) : number :=
  match digits_value 0 s with
  | Some z => num z
  | None => NaN
  end.

Definition literal_host : Host := {|
  StringToNumber := literal_number;
  NumberToString_general := fun _ => "";
  RegExp := string;
  RegExp_new := fun pattern => if pattern =? "(" then None else Some pattern;
  RegExp_test := fun re input =>
    match String.index 0 re input with
    | Some _ => true
    | None => false
    end
|}.

(** A rule with the given key, operator and value and nothing else. *)
Definition simple_rule (id key operator : string) (value : JSValue)
           (requirement : option string) : Rule.t :=
  Rule.make (Some id) key operator value None JSUndefined JSUndefined None
            requirement None None None None None.

Definition with_any_of (alternatives : list Rule.t) (rule : Rule.t) : Rule.t :=
  Rule.make (Rule.id rule) (Rule.key rule) (Rule.operator rule)
            (Rule.value rule) (Rule.values rule) (Rule.min rule)
            (Rule.max rule) (Rule.unit rule) (Rule.requirement rule)
            (Rule.label rule) (Rule.description rule) (Rule.source_url rule)
            (Rule.conditions rule) (Some alternatives).

Definition with_conditions (conditions : list Rule.t) (rule : Rule.t) : Rule.t :=
  Rule.make (Rule.id rule) (Rule.key rule) (Rule.operator rule)
            (Rule.value rule) (Rule.values rule) (Rule.min rule)
            (Rule.max rule) (Rule.unit rule) (Rule.requirement rule)
            (Rule.label rule) (Rule.description rule) (Rule.source_url rule)
            (Some conditions) (Rule.any_of rule).

Definition with_range (min max : JSValue) (rule : Rule.t) : Rule.t :=
  Rule.make (Rule.id rule) (Rule.key rule) (Rule.operator rule)
            (Rule.value rule) (Rule.values rule) min max
            (Rule.unit rule) (Rule.requirement rule)
            (Rule.label rule) (Rule.description rule) (Rule.source_url rule)
            (Rule.conditions rule) (Rule.any_of rule).

Definition ruleset_of (rules : list Rule.t) : Ruleset.t :=
  Ruleset.make (Some "example") None None None rules.

Definition fresh_engine : Engine := {| logEvents := true; eventLog := [] |}.

Definition noon : Clock :=
  {| startTime := 1000; isoTime := "2025-01-01T12:00:00.000Z"; endTime := 1002 |}.

(** The result object that [validate] starts from. *)
Definition initial_result (clock : Clock) (ruleset : Ruleset.t)
           (attributes : Attributes) : Result.t :=
  Result.make true (Ruleset.service_id ruleset) (isoTime clock)
    attributes [] [] [] [] ruleset None.


(** ** The nodes that a walk visits and what each one contributes *)

Section Walk.
Context `{Host}.

(** The missing-value test at the head of [evaluateRule]. *)
Definition missing (rule : Rule.t) (attributes : Attributes) : bool :=
  IsStrictlyEqual (get attributes (Rule.key rule)) JSUndefined
  && negb (Rule.operator rule =? "not_exists").

(** The truthiness of the rule's own condition on its attribute, as the
    [if (passed)] of [evaluateRule] reads it. *)
Definition condition_passes (rule : Rule.t) (attributes : Attributes)
  : completion bool :=
  b <- evaluateCondition rule (get attributes (Rule.key rule)) attributes ;;
  Normal (ToBoolean b).

(** The place where one call of [evaluateRule] records its own rule. *)
Inductive Outcome :=
| Passes
| PassesByAlternative
| Fails
| IsSkipped
| Vanishes.

Definition outcome (rule : Rule.t) (attributes : Attributes) : completion Outcome :=
  if missing rule attributes then
    Normal (if negb (requirement_is rule "optional") then IsSkipped else Vanishes)
  else
    passed <- condition_passes rule attributes ;;
    if passed then Normal Passes
    else
      alternative <- anyPassed rule attributes ;;
      if alternative then Normal PassesByAlternative
      else if requirement_is rule "disqualifying" then Normal Fails
      else if negb (requirement_is rule "optional") then Normal Fails
      else Normal Vanishes.

(** The rule nodes on which [evaluateRule] is called during the walk of
    [rule], in call order: the rule itself and, when its own condition
    passed, the nodes visited under each of its [conditions]. *)
Fixpoint visited (attributes : Attributes) (rule : Rule.t) {struct rule}
  : list Rule.t :=
  rule ::
    match outcome rule attributes with
    | Normal Passes =>
        match Rule.conditions rule with
        | Some conditions => flat_map (visited attributes) conditions
        | None => []
        end
    | _ => []
    end.

Definition own_passed (attributes : Attributes) (rule : Rule.t) : list Passed.t :=
  let value := get attributes (Rule.key rule) in
  match outcome rule attributes with
  | Normal Passes => [passed_record rule value]
  | Normal PassesByAlternative => [alternative_record rule value]
  | _ => []
  end.

Definition own_failed (attributes : Attributes) (rule : Rule.t) : list Failed.t :=
  let value := get attributes (Rule.key rule) in
  match outcome rule attributes with
  | Normal Fails =>
      if requirement_is rule "disqualifying"
      then [disqualifying_record rule value]
      else [failed_record rule value]
  | _ => []
  end.

Definition own_skipped (attributes : Attributes) (rule : Rule.t) : list Skipped.t :=
  match outcome rule attributes with
  | Normal IsSkipped => [skipped_record rule]
  | _ => []
  end.

Definition own_errors (attributes : Attributes) (rule : Rule.t) : list Error.t :=
  match outcome rule attributes with
  | Normal Fails => [error_record rule]
  | _ => []
  end.

(** The pattern of a [matches] rule is accepted by the [RegExp]
    constructor; rules with another operator compile no pattern. *)
Definition compiles (rule : Rule.t) : bool :=
  if Rule.operator rule =? "matches" then
    match RegExp_new (pattern_source (Rule.value rule)) with
    | Some _ => true
    | None => false
    end
  else true.

(** Every pattern that a walk of [rule] can reach compiles: the rule's own,
    those of its alternatives and those under its [conditions]. *)
Fixpoint patterns_compile (rule : Rule.t) {struct rule} : bool :=
  compiles rule
  && match Rule.any_of rule with
     | Some alternatives => forallb compiles alternatives
     | None => true
     end
  && match Rule.conditions rule with
     | Some conditions => forallb patterns_compile conditions
     | None => true
     end.

(** Membership of a rule, by its id, in the lists of a result. *)
Definition in_passed (result : Result.t) (rule : Rule.t) : Prop :=
  In (Rule.id rule) (map Passed.id (Result.passed result)).

Definition in_failed (result : Result.t) (rule : Rule.t) : Prop :=
  In (Rule.id rule) (map Failed.id (Result.failed result)).

Definition in_skipped (result : Result.t) (rule : Rule.t) : Prop :=
  In (Rule.id rule) (map Skipped.id (Result.skipped result)).

Definition in_no_list (result : Result.t) (rule : Rule.t) : Prop :=
  ~ in_passed result rule /\ ~ in_failed result rule /\ ~ in_skipped result rule.

(** The rule's own condition was evaluated and came out falsy. *)
Definition condition_failed (rule : Rule.t) (attributes : Attributes) : Prop :=
  condition_passes rule attributes = Normal false.
(** [result'] is [result] with the records of [nodes] appended, in order,
    and each of [nodes] was classified without an exception. *)
Record extends (attributes : Attributes) (nodes : list Rule.t)
       (result result' : Result.t) : Prop := {
  ext_passed :
    Result.passed result' =
    (Result.passed result ++ flat_map (own_passed attributes) nodes)%list;
  ext_failed :
    Result.failed result' =
    (Result.failed result ++ flat_map (own_failed attributes) nodes)%list;
  ext_skipped :
    Result.skipped result' =
    (Result.skipped result ++ flat_map (own_skipped attributes) nodes)%list;
  ext_errors :
    Result.errors result' =
    (Result.errors result ++ flat_map (own_errors attributes) nodes)%list;
  ext_changes : Result.changes result' = Result.changes result;
  ext_service_id : Result.service_id result' = Result.service_id result;
  ext_timestamp : Result.timestamp result' = Result.timestamp result;
  ext_outcomes :
    Forall (fun node => exists o, outcome node attributes = Normal o) nodes
}.

End Walk.

(** The operators that compare numerically. *)
Definition numeric_operators : list string :=
  [ "less_than"; "less_than_or_equal"; "greater_than";
    "greater_than_or_equal"; "between" ].

(** ** Example rules *)

(** [{key:'age', operator:'less_than_or_equal', value:65,
      requirement:'required'}] *)
Definition age_rule : Rule.t :=
  Rule.make None "age" "less_than_or_equal" (JSNumber (num 65)) None
            JSUndefined JSUndefined None (Some "required") None None None
            None None.

(** The income limit of the Section 8 ruleset. *)
Definition income_rule : Rule.t :=
  Rule.make (Some "income") "household_income_ami" "less_than_or_equal"
            (JSNumber (num 50)) None JSUndefined JSUndefined (Some "percent")
            (Some "required") (Some "Income Limit") None None None None.

(** An alternative of an [any_of] list: [{key, operator:'equals',
    value:true}]. *)
Definition alternative (key : string) : Rule.t :=
  Rule.make None key "equals" (JSBool true) None JSUndefined JSUndefined None
            None None None None None None.

Definition zip_pattern (pattern : string) : Rule.t :=
  simple_rule "zip" "zip" "matches" (JSString pattern) (Some "required").

(** An optional rule with one alternative. *)
Definition optional_with_alternative : Rule.t :=
  with_any_of [alternative "has_dependent_child"]
    (simple_rule "work" "hours_worked" "greater_than_or_equal"
       (JSNumber (num 20)) (Some "optional")).

(** A rule whose first alternative holds a pattern that does not compile. *)
Definition broken_alternative : Rule.t :=
  with_any_of [zip_pattern "("; alternative "has_dependent_child"]
    (simple_rule "work" "hours_worked" "greater_than_or_equal"
       (JSNumber (num 20)) (Some "required")).

Definition working_age : Rule.t :=
  with_range (JSNumber (num 18)) (JSNumber (num 49))
    (simple_rule "working-age" "age" "between" JSUndefined (Some "required")).

(** The income limit, with an age range to meet once it passes. *)
Definition means_test : Rule.t := with_conditions [working_age] income_rule.

Definition low_income_senior : Attributes :=
  [ ("household_income_ami", JSNumber (num 40)); ("age", JSNumber (num 70)) ].

Definition bogus_rule : Rule.t :=
  simple_rule "bogus" "age" "approximately" (JSNumber (num 65)) (Some "required").

(** A work requirement with the two alternatives of the hardship
    exemption. *)
Definition work_rule : Rule.t :=
  with_any_of [alternative "has_disability"; alternative "has_dependent_child"]
    (simple_rule "work" "hours_worked" "greater_than_or_equal"
       (JSNumber (num 20)) (Some "required")).

Definition status_rule (operator : string) : Rule.t :=
  simple_rule "status" "citizenship_status" operator JSUndefined (Some "required").

Definition part_time_parent : Attributes :=
  [ ("hours_worked", JSNumber (num 10));
    ("zip", JSString "94110");
    ("has_dependent_child", JSBool true) ].

Definition retiree : Attributes :=
  [ ("zip", JSString "94110"); ("age", JSNumber (num 65)) ].

(** ** The rest of the engine object *)

(** [new ValidationEngine(options)]: [options.logEvents], when given,
    replaces the default [true]; the log starts empty. *)
Definition constructor (logEvents_option : option bool) : Engine :=
  {| logEvents := match logEvents_option with Some b => b | None => true end;
     eventLog := [] |}.

(** [getEventLog()] returns a copy of the log. *)
Definition getEventLog (engine : Engine) : list Event.t := eventLog engine.

Definition clearEventLog (engine : Engine) : Engine :=
  {| logEvents := logEvents engine; eventLog := [] |}.

(** ** The class [ValidationResult]

    The wrapper holds one result; its methods are functions of it.  A
    [null] return is [None]. *)

(** The names under which a fresh object literal reads a truthy inherited
    member ([constructor], [toString], [__proto__], ...). *)
Class ObjectPrototype := {
  inherited : string -> bool
}.

Definition standard_prototype : ObjectPrototype := {|
  inherited := fun name =>
    existsb (String.eqb name)
      [ "constructor"; "__defineGetter__"; "__defineSetter__";
        "hasOwnProperty"; "__lookupGetter__"; "__lookupSetter__";
        "isPrototypeOf"; "propertyIsEnumerable"; "toString"; "valueOf";
        "__proto__"; "toLocaleString" ]
|}.

(** Own properties of an object built key by key, read by key (the order
    in which the object enumerates them is not used). *)
Fixpoint assoc {V : Type} (o : list (string * V)) (key : string) : option V :=
  match o with
  | [] => None
  | (k, v) :: rest => if k =? key then Some v else assoc rest key
  end.

Fixpoint assoc_set {V : Type} (o : list (string * V)) (key : string) (v : V)
  : list (string * V) :=
  match o with
  | [] => [(key, v)]
  | (k, v0) :: rest =>
      if k =? key then (k, v) :: rest else (k, v0) :: assoc_set rest key v
  end.

Definition hasError (result : Result.t) (field : string) : bool :=
  existsb (fun e => Error.field e =? field) (Result.errors result).

(** [error?.message || null] *)
Definition getError (result : Result.t) (field : string) : option string :=
  match find (fun e => Error.field e =? field) (Result.errors result) with
  | Some e => if Error.message e =? "" then None else Some (Error.message e)
  | None => None
  end.

Definition isEligible (result : Result.t) : bool := Result.valid result.

Module Summary.
Record t := make {
  eligible : bool;
  service : option string;
  passed : nat;
  failed : nat;
  skipped : nat
}.
End Summary.

Definition getSummary (result : Result.t) : Summary.t :=
  Summary.make (Result.valid result) (Result.service_id result)
    (length (Result.passed result)) (length (Result.failed result))
    (length (Result.skipped result)).

Section ErrorsMap.
Context `{ObjectPrototype}.

(** One turn of the loop of [getErrorsMap].  [map[error.field]] reads an
    own property first and an inherited member otherwise; an inherited
    member is truthy and has no [push], so the call throws a TypeError,
    which is [None] here. *)
Definition getErrorsMap_step (map : list (string * list string)) (error : Error.t)
  : option (list (string * list string)) :=
  match assoc map (Error.field error) with
  | Some messages =>
      Some (assoc_set map (Error.field error)
              (messages ++ [Error.message error])%list)
  | None =>
      if inherited (Error.field error) then None
      else Some (map ++ [(Error.field error, [Error.message error])])%list
  end.

Fixpoint getErrorsMap_loop (errors : list Error.t)
         (map : list (string * list string))
  : option (list (string * list string)) :=
  match errors with
  | [] => Some map
  | error :: rest =>
      match getErrorsMap_step map error with
      | Some map' => getErrorsMap_loop rest map'
      | None => None
      end
  end.

Definition getErrorsMap (result : Result.t)
  : option (list (string * list string)) :=
  getErrorsMap_loop (Result.errors result) [].
End ErrorsMap.

(** The messages of the errors on one field, in order. *)
Definition messages_for (field : string) (errors : list Error.t) : list string :=
  map Error.message (filter (fun e => Error.field e =? field) errors).

(** ** The pure helpers of [RulesetViewer] *)

(** [a === b] on ids. *)
Definition id_eqb (a b : option string) : bool :=
  match a, b with
  | Some x, Some y => x =? y
  | None, None => true
  | _, _ => false
  end.

(** [getValidationStatus(ruleId)] for a viewer whose [validationResult] is
    the given one ([None] when there is none). *)
Definition getValidationStatus (validationResult : option Result.t)
           (ruleId : option string) : option string :=
  match validationResult with
  | None => None
  | Some r =>
      if existsb (fun p => id_eqb (Passed.id p) ruleId) (Result.passed r)
      then Some "passed"
      else if existsb (fun f => id_eqb (Failed.id f) ruleId) (Result.failed r)
      then Some "failed"
      else if existsb (fun k => id_eqb (Skipped.id k) ruleId) (Result.skipped r)
      then Some "skipped"
      else None
  end.

(** The constant [status] that [renderCompactView] computes, from
    [failedCount], before it builds the markup. *)
Definition renderCompactView_status (validationResult : option Result.t) : string :=
  let failedCount :=
    match validationResult with
    | Some r => length (Result.failed r)
    | None => 0%nat
    end in
  if (failedCount =? 0)%nat then "eligible" else "ineligible".

Definition status_names : list (string * string) :=
  [ ("passed", "Met"); ("failed", "Not Met"); ("skipped", "Skipped") ].

Definition operator_symbols : list (string * string) :=
  [ ("equals", "="); ("not_equals", "!=");
    ("less_than", "<"); ("less_than_or_equal", "<=");
    ("greater_than", ">"); ("greater_than_or_equal", ">=");
    ("in", "is one of"); ("not_in", "is not one of");
    ("between", "is between"); ("exists", "exists");
    ("not_exists", "does not exist"); ("matches", "matches") ].

Section Tables.
Context `{ObjectPrototype}.

(** [table[name] || name]; the result is [None] when the lookup yields an
    inherited member, which is not a string. *)
Definition lookup_or_self (table : list (string * string)) (name : string)
  : option string :=
  match assoc table name with
  | Some text => if text =? "" then Some name else Some text
  | None => if inherited name then None else Some name
  end.

Definition formatOperator (op : string) : option string :=
  lookup_or_self operator_symbols op.

Definition formatStatus (status : string) : option string :=
  lookup_or_self status_names status.
End Tables.

(** Word characters of a regular expression, [\w]: ASCII letters, digits
    and the underscore.  A character outside ASCII is not one, and neither
    are the bytes that encode it in the strings used here. *)
Definition is_word (c : ascii) : bool :=
  let n := nat_of_ascii c in
  ((48 <=? n) && (n <=? 57) || (65 <=? n) && (n <=? 90)
   || (n =? 95) || (97 <=? n) && (n <=? 122))%nat.

Definition toUpperCase_char (c : ascii) : ascii :=
  let n := nat_of_ascii c in
  if ((97 <=? n) && (n <=? 122))%nat then ascii_of_nat (n - 32) else c.

Definition toLowerCase_char (c : ascii) : ascii :=
  let n := nat_of_ascii c in
  if ((65 <=? n) && (n <=? 90))%nat then ascii_of_nat (n + 32) else c.

Fixpoint map_string (f : ascii -> ascii) (s : string) : string :=
  match s with
  | EmptyString => EmptyString
  | String c rest => String (f c) (map_string f rest)
  end.

(** [s.replace(/_/g, ' ')] *)
Definition replace_underscores (s : string) : string :=
  map_string (fun c => if Ascii.eqb c "_" then " "%char else c) s.

(** [s.replace(/\b\w/g, l => l.toUpperCase())]: a word character is
    replaced when the character before it is not one. *)
Fixpoint capitalize_words (after_word : bool) (s : string) : string :=
  match s with
  | EmptyString => EmptyString
  | String c rest =>
      String (if negb after_word && is_word c then toUpperCase_char c else c)
             (capitalize_words (is_word c) rest)
  end.

Definition formatKey (key : string) : string :=
  capitalize_words false (replace_underscores key).

Definition formatValue (val : JSValue) : JSValue :=
  match val with
  | JSBool b => JSString (if b then "Yes" else "No")
  | JSString s => JSString (replace_underscores s)
  | _ => val
  end.

(** [toRoman(num)] on a non-negative integer. *)
Definition roman_lookup : list (string * nat) :=
  [ ("M", 1000); ("CM", 900); ("D", 500); ("CD", 400); ("C", 100);
    ("XC", 90); ("L", 50); ("XL", 40); ("X", 10); ("IX", 9); ("V", 5);
    ("IV", 4); ("I", 1) ]%nat.

(** [while (num >= v) { roman += i; num -= v; }], run for at most [fuel]
    turns. *)
Fixpoint roman_while (fuel : nat) (i : string) (v : nat) (roman : string)
         (num : nat) : string * nat :=
  match fuel with
  | O => (roman, num)
  | S fuel' =>
      if (v <=? num)%nat
      then roman_while fuel' i v (roman ++ i) (num - v)
      else (roman, num)
  end.

(** [for (let i in lookup) ...]; a loop over [num] takes at most [num]
    turns. *)
Fixpoint roman_for (table : list (string * nat)) (roman : string) (num : nat)
  : string :=
  match table with
  | [] => roman
  | (i, v) :: rest =>
      let (roman', num') := roman_while num i v roman num in
      roman_for rest roman' num'
  end.

Definition toRoman (num : nat) : string := roman_for roman_lookup "" num.

(** [String.fromCharCode(code)]; [None] stands for a code unit above 127,
    which the strings of this development do not hold. *)
Definition fromCharCode (code : nat) : option string :=
  if (code <? 128)%nat then Some (String (ascii_of_nat code) "") else None.

Definition toLowerCase (s : string) : string := map_string toLowerCase_char s.

Definition formatNumber (num depth : nat) : option string :=
  match depth with
  | O => Some (decimal (Z.of_nat num) ++ ".")
  | S O =>
      match fromCharCode (96 + num) with
      | Some letter => Some ("(" ++ letter ++ ")")
      | None => None
      end
  | _ => Some ("(" ++ toLowerCase (toRoman num) ++ ")")
  end.

(** The usual reading of a Roman numeral: a digit counts negatively when a
    larger one follows it. *)
Definition roman_digit (c : ascii) : Z :=
  if Ascii.eqb c "M" then 1000
  else if Ascii.eqb c "D" then 500
  else if Ascii.eqb c "C" then 100
  else if Ascii.eqb c "L" then 50
  else if Ascii.eqb c "X" then 10
  else if Ascii.eqb c "V" then 5
  else if Ascii.eqb c "I" then 1
  else 0.

Fixpoint roman_value (s : string) : Z :=
  match s with
  | EmptyString => 0
  | String c rest =>
      match rest with
      | EmptyString => roman_digit c
      | String d _ =>
          if (roman_digit c <? roman_digit d)%Z
          then roman_value rest - roman_digit c
          else roman_digit c + roman_value rest
      end%Z
  end.

(** The number of nodes under a rule through its [conditions]. *)
Fixpoint tree_size (rule : Rule.t) {struct rule} : nat :=
  S (match Rule.conditions rule with
     | Some conditions => list_sum (map tree_size conditions)
     | None => 0
     end).

(** ** Notions used to state further properties *)

Definition with_rules (rules : list Rule.t) (ruleset : Ruleset.t) : Ruleset.t :=
  Ruleset.make (Ruleset.service_id ruleset) (Ruleset.name ruleset)
    (Ruleset.jurisdiction_id ruleset) (Ruleset.effective_date ruleset) rules.

(** The exception that a computation throws, if it throws one. *)
Definition returns {A} (c : completion A) : option Exception :=
  match c with
  | Normal _ => None
  | Throw e => Some e
  end.

(** The status that the viewer shows for a node with the given outcome. *)
Definition status_of_outcome (o : Outcome) : option string :=
  match o with
  | Passes | PassesByAlternative => Some "passed"
  | Fails => Some "failed"
  | IsSkipped => Some "skipped"
  | Vanishes => None
  end.

(** The map built from the errors [seen] so far. *)
Definition groups (map : list (string * list string)) (seen : list Error.t) : Prop :=
  forall field,
    assoc map field =
    if existsb (fun e => Error.field e =? field) seen
    then Some (messages_for field seen)
    else None.

(** [n] copies of [s], one after the other. *)
Fixpoint replicate (n : nat) (s : string) : string :=
  match n with
  | O => ""
  | S n' => s ++ replicate n' s
  end.

(** The numeral of a number below one thousand. *)
Definition roman_tail (r : nat) : string := roman_for (tl roman_lookup) "" r.

(** Strings that lowering and raising again leaves as they are. *)
Definition upper_case (s : string) : Prop :=
  map_string toUpperCase_char (toLowerCase s) = s.

Definition over_65 : Rule.t :=
  simple_rule "over-65" "age" "greater_than" (JSNumber (num 65)) None.

(** A result with two errors on one field and one on a second, and one
    whose only error has an empty message. *)
Definition three_errors : Result.t :=
  Result.make false None "" []
    [ Error.make "age" "too young"; Error.make "income" "too high";
      Error.make "age" "too old" ] [] [] [] (ruleset_of []) None.

Definition family : list Rule.t := [means_test; optional_with_alternative].

(** A rule with an operator that the engine does not know and an
    alternative whose pattern does not compile. *)
Definition bogus_with_broken_alternative : Rule.t :=
  with_any_of [zip_pattern "("] bogus_rule.

(** An age range written with its bounds in the wrong order. *)
Definition inverted_range : Rule.t :=
  with_range (JSNumber (num 49)) (JSNumber (num 18)) working_age.

(** Induction on rule trees: a property holds of every rule if it holds of
    a rule whenever it holds of each of its [conditions]. *)
Section Rule_induction.
Variable P : Rule.t -> Prop.
Hypothesis step :
  forall rule,
    (forall cs, Rule.conditions rule = Some cs -> Forall P cs) -> P rule.

Lemma Rule_tree_ind : forall rule, P rule.
Proof.
  fix IH 1.
  intros [i k o v vs lo hi u r l d s conds alts].
  apply step. cbn. intros cs E.
  destruct conds as [cs0|]; [|discriminate].
  injection E as <-.
  revert cs0. fix IHl 1.
  intros [|c cs']; constructor; [apply IH | apply IHl].
Qed.
End Rule_induction.

(** ** Properties of the walk *)

Section Proofs.
Context `{Host}.

Lemma each_evaluateRules attributes cs : forall result,
  (fix each (cs : list Rule.t) (result : Result.t) : completion Result.t :=
     match cs with
     | [] => Normal result
     | condition :: cs' =>
         result' <- evaluateRule condition attributes result ;;
         each cs' result'
     end) cs result = evaluateRules cs attributes result.
Proof.
  induction cs as [|c cs IH]; intros result; [reflexivity|].
  cbn [evaluateRules]. destruct (evaluateRule c attributes result); cbn [bind]; auto.
Qed.

Lemma evaluateRule_unfold rule attributes result :
  evaluateRule rule attributes result =
  let value := get attributes (Rule.key rule) in
  if missing rule attributes then
    if negb (requirement_is rule "optional")
    then Normal (Result.push_skipped (skipped_record rule) result)
    else Normal result
  else
    passed <- evaluateCondition rule value attributes ;;
    if ToBoolean passed then
      match Rule.conditions rule with
      | Some conditions =>
          evaluateRules conditions attributes
            (Result.push_passed (passed_record rule value) result)
      | None => Normal (Result.push_passed (passed_record rule value) result)
      end
    else
      alternative <- anyPassed rule attributes ;;
      if alternative
      then Normal (Result.push_passed (alternative_record rule value) result)
      else Normal (record_failure rule value result).
Proof.
  destruct rule as [i k o v vs lo hi u r l d s conds alts].
  cbn [evaluateRule]. unfold missing. cbn [Rule.key Rule.operator Rule.conditions].
  destruct (_ && _); [reflexivity|].
  destruct (evaluateCondition _ _ _); [|reflexivity]. cbn [bind].
  destruct (ToBoolean a); [|reflexivity].
  destruct conds; [|reflexivity]. apply each_evaluateRules.
Qed.

Lemma extends_nil attributes result : extends attributes [] result result.
Proof. split; cbn; rewrite ?app_nil_r; auto. Qed.

Lemma extends_app attributes ns1 ns2 r0 r1 r2 :
  extends attributes ns1 r0 r1 -> extends attributes ns2 r1 r2 ->
  extends attributes (ns1 ++ ns2) r0 r2.
Proof.
  intros [] []. split; rewrite ?flat_map_app, ?app_assoc; try congruence.
  apply Forall_app; auto.
Qed.

Lemma visited_unfold attributes rule :
  visited attributes rule =
  rule ::
    match outcome rule attributes with
    | Normal Passes =>
        match Rule.conditions rule with
        | Some conditions => flat_map (visited attributes) conditions
        | None => []
        end
    | _ => []
    end.
Proof. destruct rule; reflexivity. Qed.

Lemma evaluateRules_extends attributes rules :
  Forall (fun rule => forall result result',
            evaluateRule rule attributes result = Normal result' ->
            extends attributes (visited attributes rule) result result') rules ->
  forall result result',
    evaluateRules rules attributes result = Normal result' ->
    extends attributes (flat_map (visited attributes) rules) result result'.
Proof.
  induction 1 as [|rule rules Hrule _ IH]; intros result result' E; cbn in E.
  - injection E as <-. apply extends_nil.
  - destruct (evaluateRule rule attributes result) as [r1|] eqn:E1; [|discriminate].
    cbn [bind] in E. cbn [flat_map]. eapply extends_app; eauto.
Qed.

Ltac own_unfold :=
  unfold own_passed, own_failed, own_skipped, own_errors.

Lemma evaluateRule_extends attributes rule :
  forall result result',
    evaluateRule rule attributes result = Normal result' ->
    extends attributes (visited attributes rule) result result'.
Proof.
  induction rule as [rule IH] using Rule_tree_ind.
  intros result result'. rewrite evaluateRule_unfold, visited_unfold. cbv zeta.
  pose proof (eq_refl (outcome rule attributes)) as Ho.
  unfold outcome at 2 in Ho. unfold condition_passes in Ho.
  destruct (missing rule attributes).
  { destruct (negb (requirement_is rule "optional")); intros E; injection E as <-;
      rewrite Ho; split; cbn; own_unfold; rewrite ?Ho, ?app_nil_r; eauto. }
  destruct (evaluateCondition rule _ attributes) as [b|]; [|discriminate].
  cbn [bind] in *.
  destruct (ToBoolean b).
  { rewrite Ho. intros E.
    assert (Hown : extends attributes [rule] result
              (Result.push_passed
                 (passed_record rule (get attributes (Rule.key rule))) result)).
    { split; cbn; own_unfold; rewrite ?Ho, ?app_nil_r; eauto. }
    destruct (Rule.conditions rule) as [cs|] eqn:Ecs.
    - apply (extends_app attributes [rule] _ _ _ _ Hown).
      eapply evaluateRules_extends; eauto.
    - injection E as <-. exact Hown. }
  destruct (anyPassed rule attributes) as [[|]|]; [| |discriminate];
    cbn [bind] in *; rewrite Ho.
  { intros E; injection E as <-.
    split; cbn; own_unfold; rewrite ?Ho, ?app_nil_r; eauto. }
  unfold record_failure. intros E; injection E as <-.
  destruct (requirement_is rule "disqualifying") eqn:Ed;
    [|destruct (negb (requirement_is rule "optional"))];
    rewrite ?Ho; split; cbn; own_unfold; rewrite ?Ho, ?Ed, ?app_nil_r; eauto.
Qed.

Lemma NoDup_map_injective {A B} (f : A -> B) (l : list A) :
  NoDup (map f l) -> forall x y, In x l -> In y l -> f x = f y -> x = y.
Proof.
  induction l as [|a l IH]; cbn; [tauto|].
  intros Hnd x y Hx Hy E. apply NoDup_cons_iff in Hnd as [Hna Hnd].
  destruct Hx as [<-|Hx], Hy as [<-|Hy]; auto.
  - exfalso. apply Hna. rewrite E. now apply in_map.
  - exfalso. apply Hna. rewrite <- E. now apply in_map.
Qed.

Lemma in_own_ids {A} (own : Rule.t -> list A) (id_of : A -> option string)
      (nodes : list Rule.t) (rule : Rule.t) :
  (forall n a, In a (own n) -> id_of a = Rule.id n) ->
  NoDup (map Rule.id nodes) -> In rule nodes ->
  In (Rule.id rule) (map id_of (flat_map own nodes)) <-> own rule <> [].
Proof.
  intros Hid Hnd Hin. split.
  - intros Hi. apply in_map_iff in Hi as (a & Ea & Ha).
    apply in_flat_map in Ha as (n & Hn & Ha).
    assert (n = rule) as ->.
    { apply (NoDup_map_injective Rule.id nodes); auto.
      rewrite <- Ea. symmetry. now apply Hid. }
    intros E. rewrite E in Ha. exact Ha.
  - destruct (own rule) as [|a rest] eqn:E; [congruence|]. intros _.
    apply in_map_iff. exists a. split.
    + apply Hid. rewrite E. now left.
    + apply in_flat_map. exists rule. split; auto. rewrite E. now left.
Qed.

Lemma own_passed_id attributes n a :
  In a (own_passed attributes n) -> Passed.id a = Rule.id n.
Proof.
  unfold own_passed. destruct (outcome n attributes) as [[]|]; cbn;
    try tauto; intros [<-|[]]; reflexivity.
Qed.

Lemma own_failed_id attributes n a :
  In a (own_failed attributes n) -> Failed.id a = Rule.id n.
Proof.
  unfold own_failed. destruct (outcome n attributes) as [[]|]; cbn; try tauto.
  destruct (requirement_is n "disqualifying"); intros [<-|[]]; reflexivity.
Qed.

Lemma own_skipped_id attributes n a :
  In a (own_skipped attributes n) -> Skipped.id a = Rule.id n.
Proof.
  unfold own_skipped. destruct (outcome n attributes) as [[]|]; cbn;
    try tauto; intros [<-|[]]; reflexivity.
Qed.

Lemma requirement_is_exclusive rule :
  requirement_is rule "disqualifying" = true ->
  requirement_is rule "optional" = false.
Proof.
  unfold requirement_is. destruct (Rule.requirement rule) as [r|]; [|discriminate].
  intros E. apply String.eqb_eq in E. subst r. reflexivity.
Qed.

Lemma outcome_Vanishes_iff rule attributes o :
  outcome rule attributes = Normal o ->
  o = Vanishes <->
  requirement_is rule "optional" = true /\
  (missing rule attributes = true \/
   (condition_failed rule attributes /\ anyPassed rule attributes = Normal false)).
Proof.
  unfold outcome, condition_failed.
  destruct (missing rule attributes).
  { destruct (requirement_is rule "optional"); cbn; intros [= <-];
      split; try discriminate; intuition congruence. }
  destruct (condition_passes rule attributes) as [[|]|]; cbn [bind];
    [| |discriminate].
  { intros [= <-]. split; [discriminate|]. intros [_ [|[]]]; discriminate. }
  destruct (anyPassed rule attributes) as [[|]|]; cbn [bind]; [| |discriminate].
  { intros [= <-]. split; [discriminate|]. intros [_ [|[]]]; discriminate. }
  destruct (requirement_is rule "disqualifying") eqn:Ed.
  { apply requirement_is_exclusive in Ed. rewrite Ed.
    intros [= <-]. split; [discriminate|]. intros []; discriminate. }
  destruct (requirement_is rule "optional"); cbn; intros [= <-];
    split; try discriminate; intuition congruence.
Qed.

Lemma validate_extends engine clock ruleset attributes result engine' :
  validate engine clock ruleset attributes = Normal (result, engine') ->
  exists walked,
    evaluateRules (Ruleset.rules ruleset) attributes
      (initial_result clock ruleset attributes) = Normal walked /\
    extends attributes (flat_map (visited attributes) (Ruleset.rules ruleset))
      (initial_result clock ruleset attributes) walked /\
    result =
      Result.set_duration_ms (endTime clock - startTime clock)%Z
        (Result.set_valid (length (Result.failed walked) =? 0)%nat walked) /\
    engine' =
      (if logEvents engine then logEvent engine (createEvent result) else engine).
Proof.
  unfold validate. fold (initial_result clock ruleset attributes).
  destruct (evaluateRules _ _ _) as [walked|] eqn:E; [|discriminate].
  cbn [bind]. intros [= <- <-]. exists walked.
  split; [reflexivity|]. split; [|split; reflexivity].
  apply evaluateRules_extends; auto.
  apply Forall_forall. intros rule _ r r'. apply evaluateRule_extends.
Qed.

Lemma own_lists_of_outcome attributes rule o :
  outcome rule attributes = Normal o ->
  match o with
  | Passes | PassesByAlternative =>
      own_passed attributes rule <> [] /\ own_failed attributes rule = [] /\
      own_skipped attributes rule = []
  | Fails =>
      own_passed attributes rule = [] /\ own_failed attributes rule <> [] /\
      own_skipped attributes rule = []
  | IsSkipped =>
      own_passed attributes rule = [] /\ own_failed attributes rule = [] /\
      own_skipped attributes rule <> []
  | Vanishes =>
      own_passed attributes rule = [] /\ own_failed attributes rule = [] /\
      own_skipped attributes rule = []
  end.
Proof.
  intros Ho. unfold own_passed, own_failed, own_skipped. rewrite Ho.
  destruct o; repeat split; try discriminate.
  destruct (requirement_is rule "disqualifying"); discriminate.
Qed.

(** C2 (amended).  When [validate] returns and the visited rule nodes
    carry distinct ids, a visited node is never in two of the lists
    [passed], [failed], [skipped]; it is in one of them or in none; and it
    is in none exactly when its requirement is [optional] and either its
    attribute is missing (the operator not being [not_exists]) or its
    condition failed and no alternative passed. *)
Theorem visited_rule_in_one_list_or_none
        engine clock ruleset attributes result engine' :
  validate engine clock ruleset attributes = Normal (result, engine') ->
  NoDup (map Rule.id (flat_map (visited attributes) (Ruleset.rules ruleset))) ->
  forall rule,
    In rule (flat_map (visited attributes) (Ruleset.rules ruleset)) ->
    ~ (in_passed result rule /\ in_failed result rule) /\
    ~ (in_passed result rule /\ in_skipped result rule) /\
    ~ (in_failed result rule /\ in_skipped result rule) /\
    (in_passed result rule \/ in_failed result rule \/
     in_skipped result rule \/ in_no_list result rule) /\
    (in_no_list result rule <->
       requirement_is rule "optional" = true /\
       (missing rule attributes = true \/
        (condition_failed rule attributes /\
         anyPassed rule attributes = Normal false))).
Proof.
  intros Hv Hnd rule Hin.
  apply validate_extends in Hv as (walked & _ & Hext & -> & _).
  destruct Hext as [Hp Hf Hs _ _ _ _ Ho]. cbn in Hp, Hf, Hs.
  unfold in_no_list, in_passed, in_failed, in_skipped. cbn.
  rewrite Hp, Hf, Hs.
  rewrite (in_own_ids (own_passed attributes) Passed.id _ rule
             (own_passed_id attributes) Hnd Hin).
  rewrite (in_own_ids (own_failed attributes) Failed.id _ rule
             (own_failed_id attributes) Hnd Hin).
  rewrite (in_own_ids (own_skipped attributes) Skipped.id _ rule
             (own_skipped_id attributes) Hnd Hin).
  rewrite Forall_forall in Ho. destruct (Ho rule Hin) as [o Eo].
  rewrite <- (outcome_Vanishes_iff rule attributes o Eo).
  pose proof (own_lists_of_outcome attributes rule o Eo) as Hown.
  destruct o; destruct Hown as (A & B & C); rewrite ?A, ?B, ?C;
    repeat split; try tauto; try discriminate; try congruence;
    intros; tauto.
Qed.
End Proofs.

(** ** [validate] returns unless a pattern fails to compile *)

Section Returns.
Context `{Host}.

Lemma switch_case_matches s : switch_case s = Some op_matches -> s = "matches".
Proof.
  unfold switch_case, operator_table. cbn [lookup_operator].
  repeat match goal with
         | |- context [String.eqb ?a s] =>
             destruct (String.eqb_spec a s) as [E|_];
             [try discriminate; intros _; now rewrite E|]
         end.
  discriminate.
Qed.

Lemma evaluateCondition_returns rule value attributes :
  compiles rule = true ->
  exists b, evaluateCondition rule value attributes = Normal b.
Proof.
  unfold compiles, evaluateCondition. intros Hc.
  destruct (switch_case (Rule.operator rule)) as [[]|] eqn:Es; eauto.
  apply switch_case_matches in Es. rewrite Es in Hc. cbn in Hc.
  destruct (RegExp_new _); [eauto|discriminate].
Qed.

Lemma some_alternative_returns alternatives attributes :
  forallb compiles alternatives = true ->
  exists b, some_alternative alternatives attributes = Normal b.
Proof.
  induction alternatives as [|alt rest IH]; cbn; [eauto|].
  intros Hc. apply andb_true_iff in Hc as [Ha Hr].
  destruct (evaluateCondition_returns alt (get attributes (Rule.key alt))
              attributes Ha) as [b ->].
  cbn. destruct (ToBoolean b); eauto.
Qed.

Lemma patterns_compile_unfold rule :
  patterns_compile rule =
  compiles rule
  && match Rule.any_of rule with
     | Some alternatives => forallb compiles alternatives
     | None => true
     end
  && match Rule.conditions rule with
     | Some conditions => forallb patterns_compile conditions
     | None => true
     end.
Proof. destruct rule; reflexivity. Qed.

Lemma evaluateRules_returns attributes rules :
  Forall (fun rule => patterns_compile rule = true ->
            forall result, exists result',
              evaluateRule rule attributes result = Normal result') rules ->
  forallb patterns_compile rules = true ->
  forall result, exists result',
    evaluateRules rules attributes result = Normal result'.
Proof.
  induction 1 as [|rule rules Hrule _ IH]; cbn; [eauto|].
  intros Hc result. apply andb_true_iff in Hc as [Hr Hrest].
  destruct (Hrule Hr result) as [r1 ->]. cbn. auto.
Qed.

Lemma evaluateRule_returns attributes rule :
  patterns_compile rule = true ->
  forall result, exists result',
    evaluateRule rule attributes result = Normal result'.
Proof.
  induction rule as [rule IH] using Rule_tree_ind.
  rewrite patterns_compile_unfold. intros Hc result.
  apply andb_true_iff in Hc as [Hc Hcs]. apply andb_true_iff in Hc as [Hc Halts].
  rewrite evaluateRule_unfold. cbv zeta.
  destruct (missing rule attributes).
  { destruct (negb _); eauto. }
  destruct (evaluateCondition_returns rule (get attributes (Rule.key rule))
              attributes Hc) as [b ->].
  cbn [bind]. destruct (ToBoolean b).
  - destruct (Rule.conditions rule) as [cs|]; [|eauto].
    apply evaluateRules_returns; auto.
  - assert (exists a, anyPassed rule attributes = Normal a) as [a ->].
    { unfold anyPassed. destruct (Rule.any_of rule) as [alts|]; [|eauto].
      destruct (0 <? length alts)%nat; [|eauto].
      now apply some_alternative_returns. }
    cbn. destruct a; eauto.
Qed.

Lemma validate_returns engine clock ruleset attributes :
  forallb patterns_compile (Ruleset.rules ruleset) = true ->
  exists result engine',
    validate engine clock ruleset attributes = Normal (result, engine').
Proof.
  intros Hc. unfold validate.
  destruct (evaluateRules_returns attributes (Ruleset.rules ruleset)) with
    (result := initial_result clock ruleset attributes) as [walked E]; auto.
  { apply Forall_forall. intros rule _. apply evaluateRule_returns. }
  unfold initial_result in E. rewrite E. cbn. eauto.
Qed.
End Returns.

(** ** The claims *)

Section Claims.
Context `{Host}.

Lemma switch_case_unrecognized s :
  ~ In s recognized_operators -> switch_case s = None.
Proof.
  unfold recognized_operators, switch_case, operator_table.
  cbn [map fst In lookup_operator]. intros Hn.
  repeat match goal with
         | |- context [String.eqb ?a s] =>
             destruct (String.eqb_spec a s) as [E|_];
             [exfalso; apply Hn; rewrite E; tauto|]
         end.
  reflexivity.
Qed.

Lemma SFltb_nan_r x : SFltb x S754_nan = false.
Proof. destruct x; reflexivity. Qed.

Lemma SFleb_nan_r x : SFleb x S754_nan = false.
Proof. destruct x; reflexivity. Qed.

Lemma SFleb_refl x : x <> S754_nan -> SFleb x x = true.
Proof.
  destruct x as [s|s| |s m e]; try congruence; intros _; unfold SFleb; cbn.
  - reflexivity.
  - destruct s; reflexivity.
  - rewrite Z.compare_refl, Pos.compare_cont_refl. destruct s; reflexivity.
Qed.

Lemma SFleb_not_nan x y : SFleb x y = true -> x <> S754_nan /\ y <> S754_nan.
Proof.
  destruct x, y; cbn; try discriminate; split; discriminate.
Qed.

(** C1.  [validate] returns a result for every ruleset whose patterns
    compile, and in every result that it returns [valid] is true exactly
    when [failed] is empty: the entries of [skipped] have no part in it. *)
Theorem validate_valid_iff_no_failure engine clock ruleset attributes :
  (forallb patterns_compile (Ruleset.rules ruleset) = true ->
   exists result engine',
     validate engine clock ruleset attributes = Normal (result, engine')) /\
  (forall result engine',
      validate engine clock ruleset attributes = Normal (result, engine') ->
      Result.valid result = (length (Result.failed result) =? 0)%nat /\
      (Result.valid result = true <-> Result.failed result = [])).
Proof.
  split; [apply validate_returns|].
  intros result engine' Hv.
  apply validate_extends in Hv as (walked & _ & _ & -> & _).
  cbn. split; [reflexivity|].
  destruct (Result.failed walked); cbn; split; congruence.
Qed.

(** C5.  A numeric operator on a value whose conversion to a number is
    NaN yields [false]. *)
Theorem malformed_number_fails_closed rule value attributes :
  In (Rule.operator rule) numeric_operators ->
  ToNumber value = NaN ->
  evaluateCondition rule value attributes = Normal (JSBool false).
Proof.
  unfold numeric_operators, evaluateCondition. cbn [In].
  intros Hop Hnan.
  destruct Hop as [E|[E|[E|[E|[E|[]]]]]]; rewrite <- E; cbn; rewrite Hnan;
    unfold js_lt, js_le, js_gt, js_ge, NaN;
    rewrite ?SFltb_nan_r, ?SFleb_nan_r; reflexivity.
Qed.

(** C10.  Without a [values] operand, [not_in] is true of every value
    and [in] yields a falsy value (undefined) for every value. *)
Theorem absent_values_membership rule value attributes :
  Rule.values rule = None ->
  (Rule.operator rule = "not_in" ->
   evaluateCondition rule value attributes = Normal (JSBool true)) /\
  (Rule.operator rule = "in" ->
   exists r, evaluateCondition rule value attributes = Normal r /\
             ToBoolean r = false).
Proof.
  intros Hv. unfold evaluateCondition.
  split; intros ->; cbn; rewrite Hv; cbn; eauto.
Qed.

(** C9.  [createEvent] is the projection of the result onto its type
    tag, timestamp, service id, validity, the three counts, the duration,
    the [field] and [message] of each error and the keys of [changes]; it
    does not change when the attribute values and the outcome records are
    replaced; on a result of [validate] the keys are those of the input
    attributes and every error is built from a visited rule alone. *)
Theorem audit_event_is_a_projection :
  (forall result,
      createEvent result =
      Event.make "validation" (Result.timestamp result)
        (Result.service_id result) (Result.valid result)
        (length (Result.passed result)) (length (Result.failed result))
        (length (Result.skipped result)) (Result.duration_ms result)
        (map (fun e => Error.make (Error.field e) (Error.message e))
             (Result.errors result))
        (Object_keys (Result.changes result))) /\
  (forall result changes' passed' failed' skipped' data',
      Object_keys changes' = Object_keys (Result.changes result) ->
      length passed' = length (Result.passed result) ->
      length failed' = length (Result.failed result) ->
      length skipped' = length (Result.skipped result) ->
      createEvent
        (Result.make (Result.valid result) (Result.service_id result)
           (Result.timestamp result) changes' (Result.errors result)
           passed' failed' skipped' data' (Result.duration_ms result)) =
      createEvent result) /\
  (forall engine clock ruleset attributes result engine',
      validate engine clock ruleset attributes = Normal (result, engine') ->
      Event.attributes_provided (createEvent result) = Object_keys attributes /\
      (logEvents engine = true ->
       eventLog engine' = (eventLog engine ++ [createEvent result])%list) /\
      (forall e, In e (Event.errors (createEvent result)) ->
                 exists rule,
                   In rule (flat_map (visited attributes) (Ruleset.rules ruleset)) /\
                   e = error_record rule)).
Proof.
  split; [reflexivity|]. split.
  - intros result changes' passed' failed' skipped' data' Hk Hp Hf Hs.
    unfold createEvent, Object_keys in *. cbn. rewrite Hk, Hp, Hf, Hs.
    reflexivity.
  - intros engine clock ruleset attributes result engine' Hv.
    apply validate_extends in Hv as (walked & _ & Hext & -> & ->).
    destruct Hext as [_ _ _ He Hc _ _ _]. cbn in He, Hc. split; [|split].
    + cbn. rewrite Hc. reflexivity.
    + intros ->. reflexivity.
    + cbn. rewrite He. intros e Hin.
      apply in_map_iff in Hin as (e0 & <- & Hin).
      apply in_flat_map in Hin as (rule & Hrule & Hin).
      exists rule. split; [exact Hrule|].
      unfold own_errors in Hin.
      destruct (outcome rule attributes) as [[]|]; cbn in Hin; try tauto.
      destruct Hin as [<-|[]]. reflexivity.
Qed.

Lemma present_not_missing rule attributes :
  get attributes (Rule.key rule) <> JSUndefined ->
  missing rule attributes = false.
Proof.
  unfold missing. destruct (get attributes (Rule.key rule)); cbn; congruence.
Qed.

(** C6 (amended).  When the walk visits a [matches] rule whose pattern
    does not compile and whose attribute is supplied, [validate] throws
    the SyntaxError of the constructor and returns no result. *)
Theorem invalid_pattern_aborts_validate
        engine clock ruleset attributes rule :
  In rule (flat_map (visited attributes) (Ruleset.rules ruleset)) ->
  Rule.operator rule = "matches" ->
  RegExp_new (pattern_source (Rule.value rule)) = None ->
  get attributes (Rule.key rule) <> JSUndefined ->
  exists pattern,
    validate engine clock ruleset attributes = Throw (SyntaxError pattern).
Proof.
  intros Hin Hop Hre Hpresent.
  destruct (validate engine clock ruleset attributes) as [[result engine']|[p]] eqn:Hv;
    [exfalso|eauto].
  apply validate_extends in Hv as (walked & _ & Hext & _).
  destruct Hext as [_ _ _ _ _ _ _ Ho]. rewrite Forall_forall in Ho.
  destruct (Ho rule Hin) as [o Eo].
  unfold outcome, condition_passes, evaluateCondition in Eo.
  rewrite (present_not_missing _ _ Hpresent), Hop in Eo. cbn in Eo.
  rewrite Hre in Eo. discriminate.
Qed.

Lemma some_alternative_reached attributes before alt after :
  Forall (fun a => exists b,
            evaluateCondition a (get attributes (Rule.key a)) attributes = Normal b)
         before ->
  condition_passes alt attributes = Normal true ->
  some_alternative (before ++ alt :: after)%list attributes = Normal true.
Proof.
  intros Hb Ha. induction Hb as [|a before [b Eb] _ IH]; cbn.
  - unfold condition_passes in Ha.
    destruct (evaluateCondition alt _ attributes) as [b|]; [|discriminate].
    cbn in *. injection Ha as ->. reflexivity.
  - rewrite Eb. cbn. destruct (ToBoolean b); auto.
Qed.

(** C4 (amended).  When the attribute of a rule is not missing, its own
    condition fails, one of its alternatives passes and every alternative
    listed before that one evaluates without throwing, [evaluateRule]
    appends the parent to [passed] with [satisfied_by] set to
    [alternative] and changes nothing else: no failure, no error, no
    record for an alternative, no descent into [conditions]. *)
Theorem alternative_stands_in_for_parent
        rule attributes result before alt after :
  missing rule attributes = false ->
  condition_failed rule attributes ->
  Rule.any_of rule = Some (before ++ alt :: after)%list ->
  Forall (fun a => exists b,
            evaluateCondition a (get attributes (Rule.key a)) attributes = Normal b)
         before ->
  condition_passes alt attributes = Normal true ->
  let value := get attributes (Rule.key rule) in
  let result' := Result.push_passed (alternative_record rule value) result in
  evaluateRule rule attributes result = Normal result' /\
  Result.passed result' =
    (Result.passed result ++ [alternative_record rule value])%list /\
  Passed.satisfied_by (alternative_record rule value) = Some "alternative" /\
  Result.failed result' = Result.failed result /\
  Result.errors result' = Result.errors result /\
  Result.skipped result' = Result.skipped result.
Proof.
  intros Hm Hf Halts Hb Ha. cbv zeta.
  split; [|repeat split].
  rewrite evaluateRule_unfold. cbv zeta. rewrite Hm.
  unfold condition_failed, condition_passes in Hf.
  destruct (evaluateCondition rule _ attributes) as [b|]; [|discriminate].
  cbn in Hf. injection Hf as Hf. cbn [bind]. rewrite Hf.
  unfold anyPassed. rewrite Halts.
  replace (0 <? length (before ++ alt :: after)%list)%nat with true.
  - rewrite (some_alternative_reached _ _ _ _ Hb Ha). reflexivity.
  - symmetry. apply Nat.ltb_lt. rewrite length_app. cbn. lia.
Qed.

Lemma undefined_attribute_is_skipped rule attributes result :
  get attributes (Rule.key rule) = JSUndefined ->
  Rule.operator rule <> "not_exists" ->
  evaluateRule rule attributes result =
  Normal (if requirement_is rule "optional" then result
          else Result.push_skipped (skipped_record rule) result).
Proof.
  intros Hu Hop. rewrite evaluateRule_unfold. cbv zeta. unfold missing.
  rewrite Hu. apply String.eqb_neq in Hop. rewrite Hop. cbn.
  destruct (requirement_is rule "optional"); reflexivity.
Qed.
End Claims.

(** C3 (the code at a null attribute).  The income rule on an attribute
    that is null is evaluated, with null converted to 0, and recorded in
    [passed]; nothing is appended to [skipped]. *)
Theorem null_attribute_is_evaluated `{Host} :
  forall engine clock,
  exists result engine',
    validate engine clock (ruleset_of [income_rule])
             [("household_income_ami", JSNull)] = Normal (result, engine') /\
    Result.skipped result = [] /\
    Result.passed result = [passed_record income_rule JSNull].
Proof. intros. do 2 eexists. split; [reflexivity|]. split; reflexivity. Qed.

Lemma null_does_not_exist `{Host} rule attributes :
  (Rule.operator rule = "exists" ->
   evaluateCondition rule JSNull attributes = Normal (JSBool false)) /\
  (Rule.operator rule = "not_exists" ->
   evaluateCondition rule JSNull attributes = Normal (JSBool true)).
Proof. unfold evaluateCondition. split; intros ->; reflexivity. Qed.

(** C2, counterexample: an optional rule whose condition failed is in
    [passed] when an alternative stands in for it. *)
Lemma optional_rule_with_alternative_is_listed :
  exists result engine',
    validate (H:=literal_host) fresh_engine noon
             (ruleset_of [optional_with_alternative]) part_time_parent =
      Normal (result, engine') /\
    requirement_is optional_with_alternative "optional" = true /\
    condition_failed (H:=literal_host) optional_with_alternative part_time_parent /\
    in_passed result optional_with_alternative /\
    ~ in_no_list result optional_with_alternative.
Proof.
  do 2 eexists. split; [reflexivity|]. split; [reflexivity|].
  split; [reflexivity|].
  split; [left; reflexivity|]. intros (Hn & _). apply Hn. left. reflexivity.
Qed.

(** C4, counterexample: the second alternative passes, yet the first
    one throws and the parent is recorded nowhere. *)
Lemma throwing_alternative_hides_the_passing_one :
  missing broken_alternative part_time_parent = false /\
  condition_failed (H:=literal_host) broken_alternative part_time_parent /\
  Rule.any_of broken_alternative =
    Some [zip_pattern "("; alternative "has_dependent_child"] /\
  condition_passes (H:=literal_host) (alternative "has_dependent_child")
    part_time_parent =
    Normal true /\
  evaluateRule (H:=literal_host) broken_alternative part_time_parent
    (initial_result noon (ruleset_of [broken_alternative]) part_time_parent) =
    Throw (SyntaxError "(").
Proof. repeat split. Qed.

(** The missing-value test comes before the alternatives: a parent whose
    attribute is not supplied is skipped although an alternative holds. *)
Lemma missing_parent_is_skipped_despite_alternative :
  condition_passes (H:=literal_host) (alternative "has_dependent_child")
    [("has_dependent_child", JSBool true)] = Normal true /\
  evaluateRule (H:=literal_host) work_rule [("has_dependent_child", JSBool true)]
    (initial_result noon (ruleset_of [work_rule])
       [("has_dependent_child", JSBool true)]) =
  Normal (Result.push_skipped (skipped_record work_rule)
            (initial_result noon (ruleset_of [work_rule])
               [("has_dependent_child", JSBool true)])).
Proof. split; reflexivity. Qed.

(** C6, counterexample: an invalid pattern on a supplied attribute makes
    [validate] throw; the rule after it is not evaluated. *)
Lemma invalid_pattern_throws_out_of_validate :
  Rule.operator (zip_pattern "(") = "matches" /\
  RegExp_new (Host:=literal_host)
    (pattern_source (H:=literal_host) (Rule.value (zip_pattern "("))) = None /\
  validate (H:=literal_host) fresh_engine noon
    (ruleset_of [zip_pattern "("; age_rule]) retiree =
  Throw (SyntaxError "(").
Proof. repeat split. Qed.

(** Witnesses: the theorems at concrete inputs. *)

Lemma validate_valid_iff_no_failure_witness :
  forallb (patterns_compile (H:=literal_host))
          (Ruleset.rules (ruleset_of [age_rule])) = true /\
  exists result engine',
    validate (H:=literal_host) fresh_engine noon (ruleset_of [age_rule]) [] =
      Normal (result, engine') /\
    length (Result.skipped result) = 1%nat /\
    Result.valid result = (length (Result.failed result) =? 0)%nat /\
    (Result.valid result = true <-> Result.failed result = []).
Proof.
  split; [reflexivity|].
  do 2 eexists. split; [reflexivity|]. split; [reflexivity|].
  apply (proj2 (validate_valid_iff_no_failure (H:=literal_host) fresh_engine
                  noon (ruleset_of [age_rule]) []) _ _ eq_refl).
Defined.

Lemma visited_rule_in_one_list_or_none_witness :
  exists result engine',
    validate (H:=literal_host) fresh_engine noon
      (ruleset_of [means_test; optional_with_alternative])
      low_income_senior = Normal (result, engine') /\
    flat_map (visited (H:=literal_host) low_income_senior)
      [means_test; optional_with_alternative] =
      [means_test; working_age; optional_with_alternative] /\
    NoDup (map Rule.id [means_test; working_age; optional_with_alternative]) /\
    in_passed result means_test /\
    in_failed result working_age /\
    in_no_list result optional_with_alternative.
Proof.
  do 2 eexists. split; [reflexivity|].
  assert (Hnd : NoDup (map Rule.id
             (flat_map (visited (H:=literal_host) low_income_senior)
                (Ruleset.rules
                   (ruleset_of [means_test; optional_with_alternative]))))).
  { cbn. repeat constructor; cbn; intuition discriminate. }
  assert (Hin : In optional_with_alternative
       (flat_map (visited (H:=literal_host) low_income_senior)
          (Ruleset.rules
             (ruleset_of [means_test; optional_with_alternative])))).
  { cbn. right. right. left. reflexivity. }
  split; [reflexivity|]. split; [exact Hnd|].
  split; [left; reflexivity|]. split; [left; reflexivity|].
  apply (visited_rule_in_one_list_or_none (H:=literal_host) fresh_engine noon
           (ruleset_of [means_test; optional_with_alternative])
           low_income_senior _ _ eq_refl Hnd optional_with_alternative Hin).
  split; [reflexivity|]. left. reflexivity.
Defined.

Lemma alternative_stands_in_for_parent_witness :
  exists result',
    evaluateRule (H:=literal_host) work_rule part_time_parent
      (initial_result noon (ruleset_of [work_rule]) part_time_parent) =
      Normal result' /\
    map Passed.id (Result.passed result') = [Some "work"] /\
    map Passed.satisfied_by (Result.passed result') = [Some "alternative"] /\
    Result.failed result' = [] /\
    Result.errors result' = [] /\
    Result.skipped result' = [].
Proof.
  destruct (alternative_stands_in_for_parent (H:=literal_host) work_rule
              part_time_parent
              (initial_result noon (ruleset_of [work_rule]) part_time_parent)
              [alternative "has_disability"]
              (alternative "has_dependent_child") [])
    as (E & Hp & _ & Hf & He & Hs).
  - reflexivity.
  - reflexivity.
  - reflexivity.
  - repeat constructor. eexists. reflexivity.
  - reflexivity.
  - eexists. split; [exact E|]. rewrite Hp, Hf, He, Hs. repeat split.
Defined.

Lemma malformed_number_fails_closed_witness :
  In (Rule.operator age_rule) numeric_operators /\
  ToNumber (H:=literal_host) (JSString "abc") = NaN /\
  evaluateCondition (H:=literal_host) age_rule (JSString "abc")
    [("age", JSString "abc")] = Normal (JSBool false).
Proof.
  assert (Hop : In (Rule.operator age_rule) numeric_operators)
    by (cbn; tauto).
  split; [exact Hop|]. split; [reflexivity|].
  apply (malformed_number_fails_closed (H:=literal_host) age_rule
           (JSString "abc") [("age", JSString "abc")] Hop eq_refl).
Defined.

Lemma invalid_pattern_aborts_validate_witness :
  exists pattern,
    validate (H:=literal_host) fresh_engine noon
      (ruleset_of [zip_pattern "("; age_rule]) retiree =
    Throw (SyntaxError pattern).
Proof.
  apply (invalid_pattern_aborts_validate (H:=literal_host) fresh_engine noon
           (ruleset_of [zip_pattern "("; age_rule]) retiree (zip_pattern "(")).
  - cbn. left. reflexivity.
  - reflexivity.
  - reflexivity.
  - discriminate.
Defined.

Lemma audit_event_is_a_projection_witness :
  exists result engine',
    validate (H:=literal_host) fresh_engine noon (ruleset_of [age_rule])
      [("age", JSNumber (num 66)); ("zip", JSString "94110")] =
      Normal (result, engine') /\
    Event.attributes_provided (createEvent result) = ["age"; "zip"] /\
    eventLog engine' = [createEvent result].
Proof.
  do 2 eexists. split; [reflexivity|].
  destruct (audit_event_is_a_projection (H:=literal_host)) as (_ & _ & Hv).
  destruct (Hv fresh_engine noon (ruleset_of [age_rule])
               [("age", JSNumber (num 66)); ("zip", JSString "94110")]
               _ _ eq_refl) as (Hk & Hlog & _).
  split; [exact Hk|]. exact (Hlog eq_refl).
Defined.

Lemma absent_values_membership_witness :
  Rule.values (status_rule "not_in") = None /\
  evaluateCondition (H:=literal_host) (status_rule "not_in")
    (JSString "visitor") [] = Normal (JSBool true) /\
  exists r,
    evaluateCondition (H:=literal_host) (status_rule "in")
      (JSString "visitor") [] = Normal r /\
    ToBoolean r = false.
Proof.
  split; [reflexivity|]. split.
  - apply (absent_values_membership (H:=literal_host) (status_rule "not_in")
             (JSString "visitor") [] eq_refl). reflexivity.
  - apply (absent_values_membership (H:=literal_host) (status_rule "in")
             (JSString "visitor") [] eq_refl). reflexivity.
Defined.

(** ** Further properties of the walk and of [validate] *)



Section Walks.
Context `{Host}.

Lemma evaluateRules_app rules1 rules2 attributes result :
  evaluateRules (rules1 ++ rules2) attributes result =
  bind (evaluateRules rules1 attributes result)
       (fun result1 => evaluateRules rules2 attributes result1).
Proof.
  revert result. induction rules1 as [|rule rules1 IH]; intros result; cbn.
  - reflexivity.
  - destruct (evaluateRule rule attributes result); cbn; auto.
Qed.

Lemma evaluateRules_any_start attributes rules :
  Forall (fun rule => forall r1 r2,
            returns (evaluateRule rule attributes r1) =
            returns (evaluateRule rule attributes r2)) rules ->
  forall r1 r2,
    returns (evaluateRules rules attributes r1) =
    returns (evaluateRules rules attributes r2).
Proof.
  induction 1 as [|rule rules Hrule _ IH]; intros r1 r2; cbn; [reflexivity|].
  specialize (Hrule r1 r2).
  destruct (evaluateRule rule attributes r1), (evaluateRule rule attributes r2);
    cbn in *; try congruence. apply IH.
Qed.

Lemma evaluateRule_any_start attributes rule :
  forall r1 r2,
    returns (evaluateRule rule attributes r1) =
    returns (evaluateRule rule attributes r2).
Proof.
  induction rule as [rule IH] using Rule_tree_ind. intros r1 r2.
  rewrite !evaluateRule_unfold. cbv zeta.
  destruct (missing rule attributes).
  { destruct (negb _); reflexivity. }
  destruct (evaluateCondition rule _ attributes) as [b|]; [|reflexivity].
  cbn [bind]. destruct (ToBoolean b).
  - destruct (Rule.conditions rule) as [cs|]; [|reflexivity].
    apply evaluateRules_any_start. auto.
  - destruct (anyPassed rule attributes) as [[]|]; reflexivity.
Qed.

Lemma returns_None {A} (c : completion A) :
  returns c = None -> exists a, c = Normal a.
Proof. destruct c; [eauto|discriminate]. Qed.

Lemma evaluateRules_restart attributes rules r1 r1' r2 :
  evaluateRules rules attributes r1 = Normal r1' ->
  exists r2', evaluateRules rules attributes r2 = Normal r2'.
Proof.
  intros E. apply returns_None.
  rewrite (evaluateRules_any_start attributes rules) with (r2 := r1).
  - rewrite E. reflexivity.
  - apply Forall_forall. intros rule _. apply evaluateRule_any_start.
Qed.

Lemma evaluateRules_walk attributes rules result result' :
  evaluateRules rules attributes result = Normal result' ->
  extends attributes (flat_map (visited attributes) rules) result result'.
Proof.
  apply evaluateRules_extends. apply Forall_forall.
  intros rule _ r r'. apply evaluateRule_extends.
Qed.

Lemma validate_lists engine clock ruleset attributes result engine' :
  validate engine clock ruleset attributes = Normal (result, engine') ->
  let nodes := flat_map (visited attributes) (Ruleset.rules ruleset) in
  Result.passed result = flat_map (own_passed attributes) nodes /\
  Result.failed result = flat_map (own_failed attributes) nodes /\
  Result.skipped result = flat_map (own_skipped attributes) nodes /\
  Result.errors result = flat_map (own_errors attributes) nodes /\
  Result.valid result = (length (Result.failed result) =? 0)%nat /\
  Forall (fun node => exists o, outcome node attributes = Normal o) nodes.
Proof.
  intros Hv. apply validate_extends in Hv as (walked & _ & Hext & -> & _).
  destruct Hext as [Hp Hf Hs He _ _ _ Ho]. cbn in *. auto 10.
Qed.

Lemma validate_of_walk engine clock ruleset attributes walked :
  evaluateRules (Ruleset.rules ruleset) attributes
    (initial_result clock ruleset attributes) = Normal walked ->
  exists result engine',
    validate engine clock ruleset attributes = Normal (result, engine').
Proof.
  intros E. unfold validate. unfold initial_result in E. rewrite E. cbn. eauto.
Qed.

(** X1.  Rules are judged one after the other and independently: when
    [validate] returns on two lists of rules, it returns on their
    concatenation, each outcome list is the concatenation of the two and
    the result is valid exactly when both are. *)
Theorem rules_are_judged_one_after_the_other
        engine clock ruleset attributes rules1 rules2
        result1 engine1 result2 engine2 :
  validate engine clock (with_rules rules1 ruleset) attributes =
    Normal (result1, engine1) ->
  validate engine clock (with_rules rules2 ruleset) attributes =
    Normal (result2, engine2) ->
  exists result engine',
    validate engine clock (with_rules (rules1 ++ rules2) ruleset) attributes =
      Normal (result, engine') /\
    Result.passed result = (Result.passed result1 ++ Result.passed result2)%list /\
    Result.failed result = (Result.failed result1 ++ Result.failed result2)%list /\
    Result.skipped result = (Result.skipped result1 ++ Result.skipped result2)%list /\
    Result.errors result = (Result.errors result1 ++ Result.errors result2)%list /\
    Result.valid result = Result.valid result1 && Result.valid result2.
Proof.
  intros H1 H2.
  pose proof (validate_lists _ _ _ _ _ _ H1) as (P1 & F1 & S1 & E1 & V1 & _).
  pose proof (validate_lists _ _ _ _ _ _ H2) as (P2 & F2 & S2 & E2 & V2 & _).
  apply validate_extends in H1 as (w1 & W1 & _).
  apply validate_extends in H2 as (w2 & W2 & _).
  cbn [with_rules Ruleset.rules] in *.
  destruct (evaluateRules_restart attributes rules1 _ _
              (initial_result clock (with_rules (rules1 ++ rules2) ruleset) attributes)
              W1) as [v1 Ev1].
  destruct (evaluateRules_restart attributes rules2 _ _ v1 W2) as [v2 Ev2].
  destruct (validate_of_walk engine clock
              (with_rules (rules1 ++ rules2) ruleset) attributes v2)
    as (result & engine' & Hv).
  { cbn [with_rules Ruleset.rules]. rewrite evaluateRules_app, Ev1. exact Ev2. }
  exists result, engine'. split; [exact Hv|].
  pose proof (validate_lists _ _ _ _ _ _ Hv) as (P & F & S & E & V & _).
  cbn [with_rules Ruleset.rules] in *.
  rewrite flat_map_app in *. rewrite !flat_map_app in *.
  rewrite V, V1, V2, P, F, S, E, P1, P2, F1, F2, S1, S2, E1, E2.
  do 4 (split; [reflexivity|]).
  rewrite length_app.
  generalize (length (flat_map (own_failed attributes)
                        (flat_map (visited attributes) rules1))).
  generalize (length (flat_map (own_failed attributes)
                        (flat_map (visited attributes) rules2))).
  intros [|a] [|b]; reflexivity.
Qed.

Lemma own_errors_lockstep attributes nodes :
  map Error.field (flat_map (own_errors attributes) nodes) =
  map Failed.key (flat_map (own_failed attributes) nodes).
Proof.
  induction nodes as [|n nodes IH]; cbn; [reflexivity|].
  rewrite !map_app, IH. f_equal.
  unfold own_errors, own_failed.
  destruct (outcome n attributes) as [[]|]; try reflexivity.
  destruct (requirement_is n "disqualifying"); reflexivity.
Qed.

Lemma existsb_map {A B} (f : A -> B) (p : B -> bool) (l : list A) :
  existsb p (map f l) = existsb (fun a => p (f a)) l.
Proof. induction l; cbn; congruence. Qed.

(** X2.  In a result of [validate] the errors follow the failed records
    one for one: the fields of [errors] are the keys of [failed], in
    order; so the result is eligible exactly when it has no error, and
    [hasError] holds of a field exactly when a failed record has that
    key. *)
Theorem errors_follow_failed engine clock ruleset attributes result engine' :
  validate engine clock ruleset attributes = Normal (result, engine') ->
  map Error.field (Result.errors result) = map Failed.key (Result.failed result) /\
  (isEligible result = true <-> Result.errors result = []) /\
  (forall field,
      hasError result field =
      existsb (fun f => Failed.key f =? field) (Result.failed result)).
Proof.
  intros Hv.
  pose proof (validate_lists _ _ _ _ _ _ Hv) as (_ & F & _ & E & V & _).
  assert (L : map Error.field (Result.errors result) =
              map Failed.key (Result.failed result)).
  { rewrite E, F. apply own_errors_lockstep. }
  split; [exact L|]. split.
  - unfold isEligible. rewrite V.
    destruct (Result.failed result), (Result.errors result);
      cbn in *; split; congruence.
  - intros field. unfold hasError.
    rewrite <- (existsb_map Error.field (fun k => k =? field)), L.
    apply existsb_map.
Qed.

(** X3.  A result of [validate] is valid exactly when no visited node, at
    any depth, fails. *)
Theorem valid_iff_no_visited_rule_fails
        engine clock ruleset attributes result engine' :
  validate engine clock ruleset attributes = Normal (result, engine') ->
  Result.valid result = true <->
  Forall (fun node => outcome node attributes <> Normal Fails)
         (flat_map (visited attributes) (Ruleset.rules ruleset)).
Proof.
  intros Hv.
  pose proof (validate_lists _ _ _ _ _ _ Hv) as (_ & F & _ & _ & V & _).
  rewrite V, F. clear.
  induction (flat_map (visited attributes) (Ruleset.rules ruleset))
    as [|n nodes IH]; cbn.
  - split; auto.
  - rewrite length_app. unfold own_failed at 1.
    destruct (outcome n attributes) as [[]|] eqn:Eo; cbn [length Nat.add];
      try (rewrite IH; split;
           [intros Hn; constructor; [congruence|exact Hn]
           |intros Hn; inversion Hn; assumption]).
    destruct (requirement_is n "disqualifying"); cbn;
      (split; [discriminate|intros Hn; inversion Hn; congruence]).
Qed.

Lemma optional_never_fails rule attributes :
  requirement_is rule "optional" = true ->
  outcome rule attributes <> Normal Fails.
Proof.
  intros Ho. unfold outcome. rewrite Ho. cbn.
  destruct (missing rule attributes); [discriminate|].
  destruct (condition_passes rule attributes) as [[]|]; cbn; try discriminate.
  destruct (anyPassed rule attributes) as [[]|]; cbn; try discriminate.
  destruct (requirement_is rule "disqualifying") eqn:Ed; [|discriminate].
  apply requirement_is_exclusive in Ed. congruence.
Qed.

(** X4.  When every visited node is optional, the result is valid and has
    no failed record and no error. *)
Theorem optional_rules_never_invalidate
        engine clock ruleset attributes result engine' :
  validate engine clock ruleset attributes = Normal (result, engine') ->
  Forall (fun node => requirement_is node "optional" = true)
         (flat_map (visited attributes) (Ruleset.rules ruleset)) ->
  Result.valid result = true /\ Result.failed result = [] /\
  Result.errors result = [].
Proof.
  intros Hv Hopt.
  pose proof (validate_lists _ _ _ _ _ _ Hv) as (_ & F & _ & E & V & _).
  assert (F0 : Result.failed result = []).
  { rewrite F. clear - Hopt. induction Hopt as [|n nodes Hn _ IH]; cbn; auto.
    rewrite IH, app_nil_r. unfold own_failed.
    pose proof (optional_never_fails n attributes Hn).
    destruct (outcome n attributes) as [[]|]; congruence. }
  assert (E0 : Result.errors result = []).
  { rewrite E. clear - Hopt. induction Hopt as [|n nodes Hn _ IH]; cbn; auto.
    rewrite IH, app_nil_r. unfold own_errors.
    pose proof (optional_never_fails n attributes Hn).
    destruct (outcome n attributes) as [[]|]; congruence. }
  rewrite V, F0. auto.
Qed.




(** X6.  On a rule whose key is not supplied: with another operator than
    [not_exists] the rule is skipped (or dropped when optional) and
    nothing is evaluated; with [not_exists] it is recorded as passed with
    the value undefined and its conditions are walked. *)
Theorem missing_key_is_never_evaluated rule attributes result :
  get attributes (Rule.key rule) = JSUndefined ->
  (Rule.operator rule <> "not_exists" ->
   evaluateRule rule attributes result =
   Normal (if requirement_is rule "optional" then result
           else Result.push_skipped (skipped_record rule) result)) /\
  (Rule.operator rule = "not_exists" ->
   evaluateRule rule attributes result =
   evaluateRules
     (match Rule.conditions rule with Some cs => cs | None => [] end)
     attributes
     (Result.push_passed (passed_record rule JSUndefined) result)).
Proof.
  intros Hu. split.
  - apply undefined_attribute_is_skipped. exact Hu.
  - intros Hop. rewrite evaluateRule_unfold. cbv zeta.
    unfold missing, evaluateCondition. rewrite Hu, Hop. cbn.
    destruct (Rule.conditions rule); reflexivity.
Qed.

(** X7.  In a result of [validate], the value of each passed or failed
    record is the attribute read under the record's key, each skipped
    record has a key that the attributes do not define and the reason
    [missing_attribute], and [changes] is the attribute mapping. *)
Theorem records_echo_the_attributes
        engine clock ruleset attributes result engine' :
  validate engine clock ruleset attributes = Normal (result, engine') ->
  (forall p, In p (Result.passed result) ->
             Passed.value p = get attributes (Passed.key p)) /\
  (forall f, In f (Result.failed result) ->
             Failed.value f = get attributes (Failed.key f)) /\
  (forall k, In k (Result.skipped result) ->
             get attributes (Skipped.key k) = JSUndefined /\
             Skipped.reason k = "missing_attribute") /\
  Result.changes result = attributes.
Proof.
  intros Hv.
  pose proof (validate_lists _ _ _ _ _ _ Hv) as (P & F & S & _).
  apply validate_extends in Hv as (walked & _ & [_ _ _ _ C _ _ _] & -> & _).
  cbn [Result.changes Result.set_duration_ms Result.set_valid] in *.
  rewrite P, F, S. split; [|split; [|split; [|exact C]]].
  - intros p Hin. apply in_flat_map in Hin as (n & _ & Hin).
    unfold own_passed in Hin.
    destruct (outcome n attributes) as [[]|]; cbn in Hin; try tauto;
      destruct Hin as [<-|[]]; reflexivity.
  - intros f Hin. apply in_flat_map in Hin as (n & _ & Hin).
    unfold own_failed in Hin.
    destruct (outcome n attributes) as [[]|]; cbn in Hin; try tauto.
    destruct (requirement_is n "disqualifying");
      destruct Hin as [<-|[]]; reflexivity.
  - intros k Hin. apply in_flat_map in Hin as (n & _ & Hin).
    unfold own_skipped, outcome in Hin.
    destruct (missing n attributes) eqn:Em.
    + unfold missing in Em. apply andb_true_iff in Em as [Em _].
      destruct (negb _); cbn in Hin; try tauto. destruct Hin as [<-|[]]. cbn.
      split; [|reflexivity].
      destruct (get attributes (Rule.key n)); try discriminate. reflexivity.
    + destruct (condition_passes n attributes) as [[]|]; cbn in Hin; try tauto.
      destruct (anyPassed n attributes) as [[]|]; cbn in Hin; try tauto.
      destruct (requirement_is n "disqualifying"); cbn in Hin; try tauto.
      destruct (negb _); cbn in Hin; tauto.
Qed.

Lemma visited_at_most_tree_size attributes rule :
  (length (visited attributes rule) <= tree_size rule)%nat.
Proof.
  induction rule as [rule IH] using Rule_tree_ind.
  rewrite visited_unfold.
  assert (Es : tree_size rule =
               S (match Rule.conditions rule with
                  | Some conditions => list_sum (map tree_size conditions)
                  | None => 0
                  end)) by (destruct rule; reflexivity).
  rewrite Es. clear Es. cbn [length]. apply le_n_S.
  destruct (outcome rule attributes) as [[]|]; cbn [length]; try lia.
  destruct (Rule.conditions rule) as [cs|]; cbn [length]; [|lia].
  specialize (IH cs eq_refl).
  induction IH as [|c cs Hc _ IHcs];
    cbn [flat_map map list_sum fold_right length]; [lia|].
  rewrite length_app. unfold list_sum in IHcs. lia.
Qed.

Lemma own_lists_at_most_one attributes node :
  (length (own_passed attributes node) + length (own_failed attributes node)
   + length (own_skipped attributes node) <= 1)%nat.
Proof.
  unfold own_passed, own_failed, own_skipped.
  destruct (outcome node attributes) as [[]|]; cbn; try lia.
  destruct (requirement_is node "disqualifying"); cbn; lia.
Qed.

(** X8.  A result of [validate] holds at most one record per node of the
    rule trees. *)
Theorem outcomes_bounded_by_tree_size
        engine clock ruleset attributes result engine' :
  validate engine clock ruleset attributes = Normal (result, engine') ->
  (length (Result.passed result) + length (Result.failed result)
   + length (Result.skipped result)
   <= list_sum (map tree_size (Ruleset.rules ruleset)))%nat.
Proof.
  intros Hv.
  pose proof (validate_lists _ _ _ _ _ _ Hv) as (P & F & S & _).
  rewrite P, F, S. clear.
  transitivity (length (flat_map (visited attributes) (Ruleset.rules ruleset))).
  - induction (flat_map (visited attributes) (Ruleset.rules ruleset))
      as [|n nodes IH]; cbn [flat_map length]; [lia|].
    rewrite !length_app. pose proof (own_lists_at_most_one attributes n). lia.
  - induction (Ruleset.rules ruleset) as [|rule rules IH];
      cbn [flat_map map list_sum fold_right length]; [lia|].
    rewrite length_app. pose proof (visited_at_most_tree_size attributes rule).
    unfold list_sum in IH. lia.
Qed.

(** X9.  [validate] appends exactly its event to the log when [logEvents]
    is set and leaves the log alone otherwise; in that event the failed
    count is the number of errors, [valid] holds exactly when there is no
    error, there is one provided key per attribute, and the duration and
    timestamp are the readings of the clock. *)
Theorem logged_event_is_consistent
        engine clock ruleset attributes result engine' :
  validate engine clock ruleset attributes = Normal (result, engine') ->
  let event := createEvent result in
  getEventLog engine' =
    (getEventLog engine ++ (if logEvents engine then [event] else []))%list /\
  logEvents engine' = logEvents engine /\
  Event.failed_count event = length (Event.errors event) /\
  (Event.valid event = true <-> Event.errors event = []) /\
  length (Event.attributes_provided event) = length attributes /\
  Event.duration_ms event = Some (endTime clock - startTime clock)%Z /\
  Event.timestamp event = isoTime clock.
Proof.
  intros Hv. cbv zeta.
  pose proof (validate_lists _ _ _ _ _ _ Hv) as (_ & F & _ & E & V & _).
  pose proof (own_errors_lockstep attributes
                (flat_map (visited attributes) (Ruleset.rules ruleset))) as L.
  rewrite <- E, <- F in L.
  apply validate_extends in Hv as (walked & _ & [_ _ _ _ C _ T _] & Er & Ee).
  split; [|split].
  - rewrite Ee. unfold getEventLog. destruct (logEvents engine); cbn;
      rewrite ?app_nil_r; reflexivity.
  - rewrite Ee. destruct (logEvents engine) eqn:El; cbn; congruence.
  - assert (Hlen : length (Result.failed result) = length (Result.errors result)).
    { rewrite <- (length_map Failed.key), <- L, length_map. reflexivity. }
    unfold createEvent. cbn. rewrite length_map.
    split; [exact Hlen|]. split.
    + rewrite V. destruct (Result.failed result), (Result.errors result);
        cbn in *; split; congruence.
    + rewrite Er. cbn. unfold Object_keys. rewrite length_map, C, T. cbn. auto.
Qed.

(** X10.  Whether [validate] returns, and the outcome lists, errors and
    validity it returns, depend neither on the engine (its log and
    options) nor on the clock. *)
Theorem outcome_does_not_depend_on_engine_or_clock
        engine1 clock1 engine2 clock2 ruleset attributes result1 engine1' :
  validate engine1 clock1 ruleset attributes = Normal (result1, engine1') ->
  exists result2 engine2',
    validate engine2 clock2 ruleset attributes = Normal (result2, engine2') /\
    Result.passed result2 = Result.passed result1 /\
    Result.failed result2 = Result.failed result1 /\
    Result.skipped result2 = Result.skipped result1 /\
    Result.errors result2 = Result.errors result1 /\
    Result.valid result2 = Result.valid result1.
Proof.
  intros H1.
  pose proof (validate_lists _ _ _ _ _ _ H1) as (P1 & F1 & S1 & E1 & V1 & _).
  apply validate_extends in H1 as (w1 & W1 & _).
  destruct (evaluateRules_restart attributes _ _ _
              (initial_result clock2 ruleset attributes) W1) as [w2 W2].
  destruct (validate_of_walk engine2 clock2 ruleset attributes w2 W2)
    as (result2 & engine2' & H2).
  exists result2, engine2'. split; [exact H2|].
  pose proof (validate_lists _ _ _ _ _ _ H2) as (P2 & F2 & S2 & E2 & V2 & _).
  rewrite V2, V1, P1, P2, F1, F2, S1, S2, E1, E2. auto.
Qed.
End Walks.

(** ** Numeric comparisons *)


Lemma SFcompare_antisym a b :
  SFcompare b a = option_map CompOpp (SFcompare a b).
Proof.
  destruct a as [sa|sa| |sa ma ea], b as [sb|sb| |sb mb eb]; cbn;
    try reflexivity;
    try (destruct sa; reflexivity); try (destruct sb; reflexivity);
    try (destruct sa, sb; reflexivity).
  destruct sa, sb; try reflexivity;
    rewrite (Z.compare_antisym ea eb), (ZC4 mb ma);
    destruct (ea ?= eb)%Z; cbn; try reflexivity;
    destruct (Pos.compare_cont Eq ma mb); reflexivity.
Qed.

Lemma SFcompare_defined a b :
  a <> S754_nan -> b <> S754_nan -> exists c, SFcompare a b = Some c.
Proof.
  destruct a, b; cbn; try congruence; eauto.
Qed.

Lemma SFltb_negb_SFleb a b :
  a <> S754_nan -> b <> S754_nan -> SFltb a b = negb (SFleb b a).
Proof.
  intros Ha Hb. unfold SFltb, SFleb. rewrite (SFcompare_antisym a b).
  destruct (SFcompare_defined a b Ha Hb) as [c ->]. destruct c; reflexivity.
Qed.

Ltac compare_cases :=
  repeat match goal with
         | H : context [Pos.compare_cont Eq ?p ?q] |- _ =>
             change (Pos.compare_cont Eq p q) with (Pos.compare p q) in H;
             destruct (Pos.compare_spec p q)
         | H : context [Z.compare ?p ?q] |- _ =>
             destruct (Z.compare_spec p q)
         | |- context [Pos.compare_cont Eq ?p ?q] =>
             change (Pos.compare_cont Eq p q) with (Pos.compare p q);
             destruct (Pos.compare_spec p q)
         | |- context [Z.compare ?p ?q] =>
             destruct (Z.compare_spec p q)
         end.

Lemma SFleb_trans a b c :
  SFleb a b = true -> SFleb b c = true -> SFleb a c = true.
Proof.
  unfold SFleb.
  destruct a as [sa|sa| |sa ma ea], b as [sb|sb| |sb mb eb],
           c as [sc|sc| |sc mc ec]; cbn;
    try discriminate; try reflexivity;
    try (destruct sa; discriminate); try (destruct sb; discriminate);
    try (destruct sc; discriminate);
    try (destruct sa, sb; discriminate); try (destruct sb, sc; discriminate);
    try (destruct sa, sc; (discriminate || reflexivity));
    try (destruct sa, sb, sc; (discriminate || reflexivity)).
  all: destruct sa, sb, sc; cbn; try discriminate; try reflexivity;
    intros H1 H2; compare_cases; subst; try discriminate; try reflexivity; try lia.
Qed.

Section Comparisons.
Context `{Host}.

(** X11.  On operands that convert to numbers other than NaN,
    [less_than] and [greater_than_or_equal], and [greater_than] and
    [less_than_or_equal], yield opposite booleans. *)
Theorem numeric_comparisons_are_complementary rule rule' value attributes :
  Rule.value rule' = Rule.value rule ->
  ToNumber value <> NaN ->
  ToNumber (Rule.value rule) <> NaN ->
  (Rule.operator rule = "less_than" /\
   Rule.operator rule' = "greater_than_or_equal") \/
  (Rule.operator rule = "greater_than" /\
   Rule.operator rule' = "less_than_or_equal") ->
  exists b,
    evaluateCondition rule value attributes = Normal (JSBool b) /\
    evaluateCondition rule' value attributes = Normal (JSBool (negb b)).
Proof.
  intros Ev Hv Hr Hops. unfold evaluateCondition.
  destruct Hops as [[-> ->]|[-> ->]]; cbn; rewrite Ev;
    unfold js_lt, js_ge, js_gt, js_le; eexists; split; try reflexivity.
  - rewrite (SFltb_negb_SFleb _ _ Hv Hr), negb_involutive. reflexivity.
  - rewrite (SFltb_negb_SFleb _ _ Hr Hv), negb_involutive. reflexivity.
Qed.

(** X12.  A [between] rule whose [max] is below its [min] is false of every
    value. *)
Theorem between_with_inverted_bounds_rejects_everything rule value attributes :
  Rule.operator rule = "between" ->
  js_lt (ToNumber (Rule.max rule)) (ToNumber (Rule.min rule)) = true ->
  evaluateCondition rule value attributes = Normal (JSBool false).
Proof.
  intros Hop Hinv. unfold evaluateCondition. rewrite Hop. cbn.
  unfold js_lt, js_ge, js_le in *.
  destruct (SFleb (ToNumber (Rule.min rule)) (ToNumber value)) eqn:E1;
    [|reflexivity].
  destruct (SFleb (ToNumber value) (ToNumber (Rule.max rule))) eqn:E2;
    [|reflexivity].
  pose proof (SFleb_trans _ _ _ E1 E2) as E3.
  destruct (SFleb_not_nan _ _ E3) as [Hlo Hhi].
  rewrite (SFltb_negb_SFleb _ _ Hhi Hlo), E3 in Hinv. discriminate.
Qed.
End Comparisons.

Lemma numeric_comparisons_are_complementary_witness :
  exists b,
    evaluateCondition (H:=literal_host) over_65 (JSString "70") [] =
      Normal (JSBool b) /\
    evaluateCondition (H:=literal_host) age_rule (JSString "70") [] =
      Normal (JSBool (negb b)).
Proof.
  apply (numeric_comparisons_are_complementary (H:=literal_host)
           over_65 age_rule (JSString "70") []).
  - reflexivity.
  - discriminate.
  - discriminate.
  - right. split; reflexivity.
Defined.

Lemma between_with_inverted_bounds_rejects_everything_witness :
  js_lt (num 18) (num 49) = true /\
  evaluateCondition (H:=literal_host)
    (with_range (JSNumber (num 49)) (JSNumber (num 18)) working_age)
    (JSNumber (num 30)) [] = Normal (JSBool false).
Proof.
  split; [reflexivity|].
  apply (between_with_inverted_bounds_rejects_everything (H:=literal_host));
    reflexivity.
Defined.

(** ** The result wrapper and the viewer *)



Lemma or_else_nonempty a b : b <> "" -> or_else a b <> "".
Proof.
  intros Hb. unfold or_else. destruct a as [s|]; [|exact Hb].
  destruct (String.eqb_spec s ""); assumption.
Qed.

Lemma error_record_message_nonempty rule :
  Error.message (error_record rule) <> "".
Proof. cbn. apply or_else_nonempty. discriminate. Qed.

Lemma existsb_find {A} (p : A -> bool) (l : list A) :
  existsb p l = true <-> exists a, find p l = Some a.
Proof.
  induction l as [|x l IH]; cbn.
  - split; [discriminate|intros [a Ha]; discriminate].
  - destruct (p x); cbn; [split; eauto|exact IH].
Qed.

Section Wrapper.
Context `{Host}.

(** X13.  [getError] returns a message only for a field that has an error,
    the non-empty message of one of its errors, and null for a field
    without error; on a result of [validate] every field with an error
    gets a message. *)
Theorem getError_agrees_with_hasError :
  (forall result field m,
      getError result field = Some m ->
      m <> "" /\ hasError result field = true /\
      exists e, In e (Result.errors result) /\
                Error.field e = field /\ Error.message e = m) /\
  (forall result field,
      hasError result field = false -> getError result field = None) /\
  (forall engine clock ruleset attributes result engine' field,
      validate engine clock ruleset attributes = Normal (result, engine') ->
      hasError result field = true ->
      exists m, getError result field = Some m).
Proof.
  split; [|split].
  - intros result field m. unfold getError, hasError.
    destruct (find _ (Result.errors result)) as [e|] eqn:Ef; [|discriminate].
    destruct (String.eqb_spec (Error.message e) ""); [discriminate|].
    intros [= <-]. split; [assumption|]. split.
    + apply existsb_find. eauto.
    + apply find_some in Ef as [Hin Hf]. apply String.eqb_eq in Hf. eauto.
  - intros result field Hn. unfold getError, hasError in *.
    destruct (find _ (Result.errors result)) as [e|] eqn:Ef; [|reflexivity].
    assert (existsb (fun e => Error.field e =? field) (Result.errors result)
            = true) by (apply existsb_find; eauto).
    congruence.
  - intros engine clock ruleset attributes result engine' field Hv Hh.
    unfold getError, hasError in *.
    apply existsb_find in Hh as [e Ef]. rewrite Ef.
    apply find_some in Ef as [Hin _].
    apply validate_extends in Hv as (walked & _ & [_ _ _ He _ _ _ _] & -> & _).
    cbn in Hin. rewrite He in Hin. cbn in Hin.
    apply in_flat_map in Hin as (rule & _ & Hin).
    unfold own_errors in Hin.
    destruct (outcome rule attributes) as [[]|]; cbn in Hin; try tauto.
    destruct Hin as [<-|[]].
    destruct (String.eqb_spec (Error.message (error_record rule)) "") as [E|_].
    + exfalso. exact (error_record_message_nonempty rule E).
    + eauto.
Qed.
End Wrapper.

Lemma assoc_app {V} (o : list (string * V)) key v f :
  assoc (o ++ [(key, v)]) f =
  match assoc o f with
  | Some x => Some x
  | None => if key =? f then Some v else None
  end.
Proof.
  induction o as [|[k x] o IH]; cbn; [reflexivity|].
  destruct (k =? f); auto.
Qed.

Lemma assoc_assoc_set {V} (o : list (string * V)) key v f :
  assoc o key <> None ->
  assoc (assoc_set o key v) f = if key =? f then Some v else assoc o f.
Proof.
  induction o as [|[k x] o IH]; cbn; [congruence|].
  destruct (String.eqb_spec k key) as [->|Hk]; cbn.
  - intros _. destruct (key =? f); reflexivity.
  - intros Hp. rewrite (IH Hp).
    destruct (String.eqb_spec k f) as [->|]; [|reflexivity].
    destruct (String.eqb_spec key f); congruence.
Qed.

Lemma assoc_set_keys {V} (Q : string -> Prop) (o : list (string * V)) key v :
  Forall (fun kv => Q (fst kv)) o -> Q key ->
  Forall (fun kv => Q (fst kv)) (assoc_set o key v).
Proof.
  intros Ho Hk. induction Ho as [|[k x] o Hx Ho IH]; cbn.
  - constructor; [exact Hk|constructor].
  - cbn in Hx. destruct (k =? key); constructor; cbn; auto.
Qed.

Lemma messages_for_app field errors e :
  messages_for field (errors ++ [e]) =
  (messages_for field errors
   ++ if Error.field e =? field then [Error.message e] else [])%list.
Proof.
  unfold messages_for. rewrite filter_app, map_app. cbn.
  destruct (Error.field e =? field); reflexivity.
Qed.

Section ErrorsMapProofs.
Context `{ObjectPrototype}.

Lemma getErrorsMap_step_groups map seen error :
  groups map seen ->
  inherited (Error.field error) = false ->
  exists map',
    getErrorsMap_step map error = Some map' /\ groups map' (seen ++ [error]).
Proof.
  intros Hg Hi. unfold getErrorsMap_step.
  destruct (assoc map (Error.field error)) as [messages|] eqn:Ea.
  - eexists. split; [reflexivity|]. intros field.
    rewrite assoc_assoc_set by congruence.
    rewrite existsb_app, messages_for_app. cbn. rewrite orb_false_r.
    destruct (String.eqb_spec (Error.field error) field) as [<-|Hne].
    + rewrite Hg in Ea.
      destruct (existsb _ seen); [|discriminate]. injection Ea as <-.
      reflexivity.
    + rewrite orb_false_r, app_nil_r. apply Hg.
  - rewrite Hi. eexists. split; [reflexivity|]. intros field.
    rewrite assoc_app, existsb_app, messages_for_app. cbn.
    rewrite orb_false_r.
    destruct (String.eqb_spec (Error.field error) field) as [<-|Hne].
    + rewrite Ea. rewrite Hg in Ea.
      destruct (existsb _ seen) eqn:Es; [discriminate|]. cbn.
      unfold messages_for.
      replace (filter _ seen) with (@nil Error.t); [reflexivity|].
      symmetry. clear - Es. induction seen as [|x seen IH]; cbn in *; auto.
      apply orb_false_iff in Es as [-> Es]. auto.
    + rewrite orb_false_r, app_nil_r, Hg.
      destruct (existsb _ seen); reflexivity.
Qed.

Lemma getErrorsMap_loop_groups errors :
  forall map seen,
    groups map seen ->
    Forall (fun e => inherited (Error.field e) = false) errors ->
    exists map',
      getErrorsMap_loop errors map = Some map' /\
      groups map' (seen ++ errors).
Proof.
  induction errors as [|error errors IH]; intros map seen Hg Hall; cbn.
  - rewrite app_nil_r. eauto.
  - inversion Hall as [|? ? Hi Hrest]; subst.
    destruct (getErrorsMap_step_groups map seen error Hg Hi) as (m1 & -> & Hg1).
    destruct (IH m1 (seen ++ [error])%list Hg1 Hrest) as (m2 & E2 & Hg2).
    rewrite <- app_assoc in Hg2. eauto.
Qed.

Lemma getErrorsMap_loop_throws errors :
  forall map,
    Forall (fun kv => inherited (fst kv) = false) map ->
    Exists (fun e => inherited (Error.field e) = true) errors ->
    getErrorsMap_loop errors map = None.
Proof.
  induction errors as [|error errors IH]; intros map Hkeys Hex; cbn.
  - inversion Hex.
  - unfold getErrorsMap_step.
    destruct (inherited (Error.field error)) eqn:Hi.
    + assert (assoc map (Error.field error) = None) as ->; [|reflexivity].
      clear - Hkeys Hi. induction Hkeys as [|[k v] map Hk _ IHm]; cbn; auto.
      destruct (String.eqb_spec k (Error.field error)) as [E|]; [|exact IHm].
      cbn in Hk. congruence.
    + inversion Hex as [? ? Hhere|? ? Hlater]; subst; [congruence|].
      destruct (assoc map (Error.field error)) as [messages|] eqn:Ea.
      * apply IH; [|exact Hlater].
        apply (assoc_set_keys (fun k => inherited k = false)); assumption.
      * apply IH; [|exact Hlater].
        apply Forall_app. split; [exact Hkeys|]. constructor; [exact Hi|constructor].
Qed.
End ErrorsMapProofs.

Section ErrorsMapTheorem.
Context `{ObjectPrototype}.

(** X14.  When no error field names an inherited member, [getErrorsMap]
    maps each field that has an error to its messages in order and no
    other field; when some error field names an inherited member it
    throws. *)
Theorem getErrorsMap_groups_messages_by_field result :
  (Forall (fun e => inherited (Error.field e) = false) (Result.errors result) ->
   exists map,
     getErrorsMap result = Some map /\
     forall field,
       assoc map field =
       if hasError result field
       then Some (messages_for field (Result.errors result))
       else None) /\
  (Exists (fun e => inherited (Error.field e) = true) (Result.errors result) ->
   getErrorsMap result = None).
Proof.
  split.
  - intros Hall.
    destruct (getErrorsMap_loop_groups (Result.errors result) [] []) as (m & E & Hg).
    + intros field. reflexivity.
    + exact Hall.
    + exists m. split; [exact E|]. exact Hg.
  - intros Hex. apply getErrorsMap_loop_throws; [constructor|exact Hex].
Qed.
End ErrorsMapTheorem.

Lemma existsb_id_eqb {A} (id_of : A -> option string) (l : list A) ruleId :
  existsb (fun a => id_eqb (id_of a) ruleId) l = true <->
  In ruleId (map id_of l).
Proof.
  rewrite existsb_exists, in_map_iff.
  assert (Heq : forall a b, id_eqb a b = true <-> a = b).
  { intros [a|] [b|]; cbn; try (split; congruence).
    rewrite String.eqb_eq. split; congruence. }
  split.
  - intros (a & Hin & Hy). exists a. split; [apply Heq; exact Hy|exact Hin].
  - intros (a & Hy & Hin). exists a. split; [exact Hin|apply Heq; exact Hy].
Qed.

Lemma existsb_false_iff {A} (p : A -> bool) (l : list A) (P : Prop) :
  (existsb p l = true <-> P) -> ~ P -> existsb p l = false.
Proof. intros Hiff Hn. destruct (existsb p l); [|reflexivity]. tauto. Qed.

Section Viewer.
Context `{Host}.

(** X15.  For a result of [validate] on rules with distinct ids,
    [getValidationStatus] of a visited rule's id is [passed], [failed] or
    [skipped] according to the outcome of that rule and null when the
    rule left no record; an id of no visited rule has status null. *)
Theorem getValidationStatus_reports_the_outcome
        engine clock ruleset attributes result engine' :
  validate engine clock ruleset attributes = Normal (result, engine') ->
  NoDup (map Rule.id (flat_map (visited attributes) (Ruleset.rules ruleset))) ->
  (forall rule,
      In rule (flat_map (visited attributes) (Ruleset.rules ruleset)) ->
      exists o,
        outcome rule attributes = Normal o /\
        getValidationStatus (Some result) (Rule.id rule) = status_of_outcome o) /\
  (forall ruleId,
      ~ In ruleId
          (map Rule.id (flat_map (visited attributes) (Ruleset.rules ruleset))) ->
      getValidationStatus (Some result) ruleId = None).
Proof.
  intros Hv Hnd.
  pose proof Hv as Hv'.
  apply validate_extends in Hv' as (walked & _ & Hext & -> & _).
  destruct Hext as [Hp Hf Hs _ _ _ _ Ho]. cbn in Hp, Hf, Hs.
  split.
  - intros rule Hin. rewrite Forall_forall in Ho.
    destruct (Ho rule Hin) as [o Eo]. exists o. split; [exact Eo|].
    pose proof (own_lists_of_outcome attributes rule o Eo) as Hown.
    unfold getValidationStatus. cbn. rewrite Hp, Hf, Hs. cbn.
    pose proof (in_own_ids (own_passed attributes) Passed.id _ rule
                  (own_passed_id attributes) Hnd Hin) as Ip.
    pose proof (in_own_ids (own_failed attributes) Failed.id _ rule
                  (own_failed_id attributes) Hnd Hin) as If.
    pose proof (in_own_ids (own_skipped attributes) Skipped.id _ rule
                  (own_skipped_id attributes) Hnd Hin) as Is.
    rewrite <- existsb_id_eqb in Ip. rewrite <- existsb_id_eqb in If.
    rewrite <- existsb_id_eqb in Is.
    destruct o; destruct Hown as (A & B & C); cbn;
      repeat match goal with
             | |- context [existsb ?p ?l] =>
                 let E := fresh "E" in
                 destruct (existsb p l) eqn:E
             end;
      try reflexivity; exfalso; intuition congruence.
  - intros ruleId Hnot. unfold getValidationStatus. cbn. rewrite Hp, Hf, Hs. cbn.
    assert (Hno : forall A (own : Rule.t -> list A) (id_of : A -> option string),
               (forall n a, In a (own n) -> id_of a = Rule.id n) ->
               existsb (fun a => id_eqb (id_of a) ruleId)
                 (flat_map own (flat_map (visited attributes)
                                  (Ruleset.rules ruleset))) = false).
    { intros A own id_of Hid.
      apply (existsb_false_iff _ _ _ (existsb_id_eqb id_of _ ruleId)).
      intros Hin. apply in_map_iff in Hin as (a & <- & Hin).
      apply in_flat_map in Hin as (n & Hn & Ha).
      apply Hnot. rewrite (Hid n a Ha). now apply in_map. }
    rewrite (Hno _ _ _ (own_passed_id attributes)),
            (Hno _ _ _ (own_failed_id attributes)),
            (Hno _ _ _ (own_skipped_id attributes)).
    reflexivity.
Qed.

(** X16.  The status of the compact view is [eligible] when there is no
    validation result; for a result of [validate] it is [eligible]
    exactly when the result is valid and [ineligible] otherwise. *)
Theorem compact_view_status_follows_valid :
  renderCompactView_status None = "eligible" /\
  forall engine clock ruleset attributes result engine',
    validate engine clock ruleset attributes = Normal (result, engine') ->
    (renderCompactView_status (Some result) = "eligible" <->
     Result.valid result = true) /\
    (renderCompactView_status (Some result) = "ineligible" <->
     Result.valid result = false).
Proof.
  split; [reflexivity|].
  intros engine clock ruleset attributes result engine' Hv.
  apply validate_extends in Hv as (walked & _ & _ & -> & _).
  unfold renderCompactView_status. cbn.
  destruct (length (Result.failed walked) =? 0)%nat; split; split;
    congruence || discriminate.
Qed.
End Viewer.

Section StatusLabel.
Context `{ObjectPrototype}.

(** X17.  Every status that [getValidationStatus] returns is one that
    [formatStatus] has a label for, whatever the object prototype. *)
Theorem every_status_has_a_label validationResult ruleId status :
  getValidationStatus validationResult ruleId = Some status ->
  exists label,
    formatStatus status = Some label /\
    In label ["Met"; "Not Met"; "Skipped"].
Proof.
  unfold getValidationStatus. destruct validationResult as [r|]; [|discriminate].
  destruct (existsb _ (Result.passed r)).
  { intros [= <-]. eexists. split; [reflexivity|]. cbn. tauto. }
  destruct (existsb _ (Result.failed r)).
  { intros [= <-]. eexists. split; [reflexivity|]. cbn. tauto. }
  destruct (existsb _ (Result.skipped r)); [|discriminate].
  intros [= <-]. eexists. split; [reflexivity|]. cbn. tauto.
Qed.
End StatusLabel.

(** ** Clause numbers *)



Lemma append_assoc (a b c : string) : (a ++ b) ++ c = a ++ (b ++ c).
Proof. induction a as [|x a IH]; cbn; congruence. Qed.

Lemma append_empty_r (a : string) : a ++ "" = a.
Proof. induction a as [|x a IH]; cbn; congruence. Qed.

Lemma roman_while_append fuel i v roman num :
  roman_while fuel i v roman num =
  (roman ++ fst (roman_while fuel i v "" num),
   snd (roman_while fuel i v "" num)).
Proof.
  revert roman num. induction fuel as [|fuel IH]; intros roman num; cbn.
  - rewrite append_empty_r. reflexivity.
  - destruct (v <=? num)%nat; cbn.
    + rewrite (IH (roman ++ i)), (IH i). cbn. rewrite append_assoc. reflexivity.
    + rewrite append_empty_r. reflexivity.
Qed.

Lemma roman_for_append table roman num :
  roman_for table roman num = roman ++ roman_for table "" num.
Proof.
  revert roman num. induction table as [|[i v] table IH]; intros roman num; cbn.
  - rewrite append_empty_r. reflexivity.
  - rewrite (roman_while_append num i v roman num).
    destruct (roman_while num i v "" num) as [r n] eqn:E. cbn.
    rewrite (IH (roman ++ r)), (IH r), append_assoc. reflexivity.
Qed.

Lemma roman_while_thousands k :
  forall fuel r,
    (k <= fuel)%nat -> (r < 1000)%nat ->
    roman_while fuel "M" 1000 "" (1000 * k + r) = (replicate k "M", r).
Proof.
  induction k as [|k IH]; intros fuel r Hf Hr.
  - replace (1000 * 0 + r)%nat with r by lia.
    destruct fuel; cbn [roman_while replicate]; [reflexivity|].
    destruct (Nat.leb_spec 1000 r); [lia|reflexivity].
  - destruct fuel as [|fuel]; [lia|]. cbn [roman_while].
    destruct (Nat.leb_spec 1000 (1000 * S k + r)); [|lia].
    replace (1000 * S k + r - 1000)%nat with (1000 * k + r)%nat by lia.
    rewrite roman_while_append, (IH fuel r) by lia.
    reflexivity.
Qed.

Lemma toRoman_thousands n :
  toRoman n = replicate (n / 1000) "M" ++ roman_tail (n mod 1000).
Proof.
  pose proof (Nat.div_mod_eq n 1000) as E.
  pose proof (Nat.mod_upper_bound n 1000 ltac:(lia)) as Hr.
  assert (Hk : (n / 1000 <= n)%nat) by (apply Nat.Div0.div_le_upper_bound; lia).
  pose proof (roman_while_thousands (n / 1000) n (n mod 1000) Hk Hr) as W.
  rewrite <- E in W.
  unfold toRoman, roman_tail, roman_lookup. cbn [tl].
  change (roman_for (("M", 1000%nat) :: ?t) "" n)
    with (let (roman', num') := roman_while n "M" 1000 "" n in
          roman_for t roman' num').
  rewrite W. apply roman_for_append.
Qed.

Lemma roman_digit_le c : (roman_digit c <= 1000)%Z.
Proof.
  unfold roman_digit.
  repeat match goal with |- context [Ascii.eqb ?a ?b] => destruct (Ascii.eqb a b) end;
    lia.
Qed.

Lemma roman_value_M s : roman_value (String "M" s) = (1000 + roman_value s)%Z.
Proof.
  destruct s as [|d s]; [reflexivity|].
  change (roman_value (String "M" (String d s)))
    with (if (1000 <? roman_digit d)%Z
          then roman_value (String d s) - 1000
          else 1000 + roman_value (String d s))%Z.
  pose proof (roman_digit_le d).
  destruct (Z.ltb_spec 1000 (roman_digit d)); [lia|reflexivity].
Qed.

Lemma roman_value_thousands k s :
  roman_value (replicate k "M" ++ s) = (1000 * Z.of_nat k + roman_value s)%Z.
Proof.
  induction k as [|k IH]; [cbn [replicate append]; lia|].
  cbn [replicate]. change ("M" ++ replicate k "M") with (String "M" (replicate k "M")).
  change (String "M" (replicate k "M") ++ s)
    with (String "M" (replicate k "M" ++ s)).
  rewrite roman_value_M, IH. lia.
Qed.

Lemma roman_tail_value r :
  (r < 1000)%nat -> roman_value (roman_tail r) = Z.of_nat r.
Proof.
  intros Hr.
  assert (Hall : forallb (fun r => (roman_value (roman_tail r) =? Z.of_nat r)%Z)
                         (seq 0 1000) = true) by (vm_compute; reflexivity).
  rewrite forallb_forall in Hall. apply Z.eqb_eq, Hall, in_seq. lia.
Qed.

Lemma roman_value_toRoman n : roman_value (toRoman n) = Z.of_nat n.
Proof.
  rewrite toRoman_thousands, roman_value_thousands,
    roman_tail_value by (apply Nat.mod_upper_bound; lia).
  pose proof (Nat.div_mod_eq n 1000). lia.
Qed.

Lemma roman_while_exits fuel i v roman num :
  (0 < v)%nat -> (num <= fuel)%nat ->
  (snd (roman_while fuel i v roman num) < v)%nat.
Proof.
  intros Hv. revert roman num.
  induction fuel as [|fuel IH]; intros roman num Hf; cbn.
  - lia.
  - destruct (Nat.leb_spec v num); cbn; [apply IH|]; lia.
Qed.

(** X18.  The numeral that [toRoman] writes reads back as the number; so
    distinct numbers get distinct numerals and only 0 gets the empty one.
    Each of its loops stops because its condition fails. *)
Theorem toRoman_reads_back n :
  roman_value (toRoman n) = Z.of_nat n /\
  (forall m, toRoman m = toRoman n -> m = n) /\
  (toRoman n = "" <-> n = 0%nat) /\
  (forall i v roman,
      (0 < v)%nat -> (snd (roman_while n i v roman n) < v)%nat).
Proof.
  split; [apply roman_value_toRoman|]. split; [|split].
  - intros m E. apply Nat2Z.inj. rewrite <- !roman_value_toRoman, E. reflexivity.
  - split.
    + intros E. apply Nat2Z.inj. rewrite <- roman_value_toRoman, E. reflexivity.
    + intros ->. reflexivity.
  - intros i v roman Hv. apply roman_while_exits; lia.
Qed.

Lemma decimal_of_nat_injective n m :
  decimal (Z.of_nat n) = decimal (Z.of_nat m) -> n = m.
Proof.
  unfold decimal. intros E.
  assert (Hnn : forall k, Z.to_int (Z.of_nat k) <> Decimal.Pos Decimal.Nil /\
                          Z.to_int (Z.of_nat k) <> Decimal.Neg Decimal.Nil).
  { intros k. destruct (Z.of_nat k) eqn:Ek; cbn; try lia.
    - split; discriminate.
    - split; [|discriminate]. intros [= Hp].
      exact (DecimalPos.Unsigned.to_uint_nonnil _ Hp). }
  destruct (Hnn n) as [N1 N2], (Hnn m) as [M1 M2].
  pose proof (NilZero.isi _ N1 N2) as In. pose proof (NilZero.isi _ M1 M2) as Im.
  rewrite E, Im in In. injection In as In.
  apply Nat2Z.inj. apply DecimalZ.to_int_inj. congruence.
Qed.

Lemma length_append (a b : string) :
  String.length (a ++ b) = (String.length a + String.length b)%nat.
Proof. induction a as [|x a IH]; cbn; congruence. Qed.

Lemma append_cancel_r (a b c : string) : a ++ c = b ++ c -> a = b.
Proof.
  revert b. induction a as [|x a IH]; intros [|y b] E; cbn in E.
  - reflexivity.
  - exfalso. apply (f_equal String.length) in E. cbn in E.
    rewrite length_append in E. lia.
  - exfalso. apply (f_equal String.length) in E. cbn in E.
    rewrite length_append in E. lia.
  - injection E as -> E. f_equal. auto.
Qed.

Lemma map_string_append f a b :
  map_string f (a ++ b) = map_string f a ++ map_string f b.
Proof. induction a as [|x a IH]; cbn; congruence. Qed.

Lemma upper_case_append a b : upper_case a -> upper_case b -> upper_case (a ++ b).
Proof.
  unfold upper_case, toLowerCase. intros Ha Hb.
  rewrite !map_string_append. congruence.
Qed.

Lemma roman_while_upper_case fuel i v roman num :
  upper_case i -> upper_case roman ->
  upper_case (fst (roman_while fuel i v roman num)).
Proof.
  intros Hi. revert roman num.
  induction fuel as [|fuel IH]; intros roman num Hr; cbn; [exact Hr|].
  destruct (v <=? num)%nat; [|exact Hr].
  apply IH. now apply upper_case_append.
Qed.

Lemma roman_for_upper_case table :
  Forall (fun entry => upper_case (fst entry)) table ->
  forall roman num, upper_case roman -> upper_case (roman_for table roman num).
Proof.
  induction 1 as [|[i v] table Hi _ IH]; intros roman num Hr; cbn; [exact Hr|].
  pose proof (roman_while_upper_case num i v roman num Hi Hr) as Hw.
  destruct (roman_while num i v roman num) as [r n]. apply IH. exact Hw.
Qed.

Lemma toRoman_upper_case n : upper_case (toRoman n).
Proof.
  apply roman_for_upper_case; [|reflexivity].
  repeat constructor.
Qed.

(** X19.  At each depth [formatNumber] gives distinct labels to distinct
    numbers. *)
Theorem formatNumber_labels_are_distinct depth n m label :
  formatNumber n depth = Some label ->
  formatNumber m depth = Some label ->
  n = m.
Proof.
  destruct depth as [|[|depth]]; cbn [formatNumber].
  - intros [= <-] [= E]. apply append_cancel_r in E.
    symmetry. now apply decimal_of_nat_injective.
  - unfold fromCharCode.
    destruct (Nat.ltb_spec (96 + n) 128); [|discriminate].
    destruct (Nat.ltb_spec (96 + m) 128); [|discriminate].
    intros [= <-] [= E].
    apply (f_equal nat_of_ascii) in E.
    rewrite !nat_ascii_embedding in E by lia. lia.
  - intros [= <-] [= E].
    apply (append_cancel_r _ _ ")") in E.
    apply (f_equal (map_string toUpperCase_char)) in E.
    rewrite (toRoman_upper_case n), (toRoman_upper_case m) in E.
    apply Nat2Z.inj. rewrite <- !roman_value_toRoman. congruence.
Qed.

(** ** Labels and operator tables *)


Ltac every_char c := destruct c as [[] [] [] [] [] [] [] []].

Lemma capitalized_char_is_stable (after_word : bool) (c : ascii) :
  let r := fun c : ascii => if Ascii.eqb c "_" then " "%char else c in
  let g := fun c : ascii =>
             if negb after_word && is_word c then toUpperCase_char c else c in
  r (g (r c)) = g (r c) /\ g (g c) = g c /\ is_word (g c) = is_word c /\
  Ascii.eqb (r c) "_" = false.
Proof. every_char c; destruct after_word; repeat split. Qed.

Lemma capitalize_words_idempotent s :
  forall after_word,
    capitalize_words after_word (capitalize_words after_word s) =
    capitalize_words after_word s.
Proof.
  induction s as [|c s IH]; intros after_word; cbn; [reflexivity|].
  destruct (capitalized_char_is_stable after_word c) as (_ & Hg & Hw & _).
  cbv zeta in Hg, Hw. rewrite Hg, Hw, IH. reflexivity.
Qed.

Lemma replace_after_capitalize s :
  forall after_word,
    replace_underscores (capitalize_words after_word (replace_underscores s)) =
    capitalize_words after_word (replace_underscores s).
Proof.
  unfold replace_underscores.
  induction s as [|c s IH]; intros after_word; cbn; [reflexivity|].
  destruct (capitalized_char_is_stable after_word c) as (Hr & _).
  cbv zeta in Hr. rewrite Hr, IH. reflexivity.
Qed.

Lemma map_string_length f s : String.length (map_string f s) = String.length s.
Proof. induction s; cbn; congruence. Qed.

Lemma capitalize_words_length s :
  forall after_word,
    String.length (capitalize_words after_word s) = String.length s.
Proof. induction s; intros; cbn; congruence. Qed.

Lemma capitalize_words_no_underscore s :
  forall after_word,
    ~ In "_"%char
        (list_ascii_of_string
           (capitalize_words after_word (replace_underscores s))).
Proof.
  unfold replace_underscores.
  induction s as [|c s IH]; intros after_word; cbn; [tauto|].
  intros [E|Hin]; [|exact (IH _ Hin)].
  revert E. every_char c; destruct after_word; discriminate.
Qed.

(** X20.  [formatKey] keeps the length of the key, leaves no underscore and
    changes nothing when applied to its own output; [formatValue]
    changes nothing when applied to its own output either. *)
Theorem formatKey_is_a_stable_label key :
  formatKey (formatKey key) = formatKey key /\
  String.length (formatKey key) = String.length key /\
  ~ In "_"%char (list_ascii_of_string (formatKey key)) /\
  (forall val, formatValue (formatValue val) = formatValue val).
Proof.
  unfold formatKey. split; [|split; [|split]].
  - rewrite replace_after_capitalize. apply capitalize_words_idempotent.
  - rewrite capitalize_words_length. apply map_string_length.
  - apply capitalize_words_no_underscore.
  - intros [| |[]|n|t]; cbn; try reflexivity. f_equal.
    unfold replace_underscores. induction t as [|c t IH]; cbn; [reflexivity|].
    rewrite IH. f_equal. destruct (Ascii.eqb c "_") eqn:E; [reflexivity|].
    rewrite E. reflexivity.
Qed.

Lemma assoc_None_iff {V} (o : list (string * V)) key :
  assoc o key = None <-> ~ In key (map fst o).
Proof.
  induction o as [|[k v] o IH]; cbn; [tauto|].
  destruct (String.eqb_spec k key) as [->|Hne].
  - split; [discriminate|tauto].
  - rewrite IH. tauto.
Qed.

Lemma lookup_operator_None_iff table s :
  lookup_operator table s = None <-> ~ In s (map fst table).
Proof.
  induction table as [|[k v] o IH]; cbn; [tauto|].
  destruct (String.eqb_spec k s) as [->|Hne].
  - split; [discriminate|tauto].
  - rewrite IH. tauto.
Qed.

Section OperatorTables.
Context `{Host} `{ObjectPrototype}.

(** X21.  The viewer's symbol table has an entry exactly for the operators
    that the engine's [switch] knows; a known operator has a non-empty
    symbol and, [matches] apart, an expectation string; an unknown one
    that names no inherited member is shown as it is. *)
Theorem viewer_and_engine_know_the_same_operators op :
  (switch_case op = None <-> assoc operator_symbols op = None) /\
  (switch_case op <> None ->
   exists symbol, formatOperator op = Some symbol /\ symbol <> "" /\
                  assoc operator_symbols op = Some symbol) /\
  (switch_case op = None -> inherited op = false ->
   formatOperator op = Some op) /\
  (switch_case op <> None -> op <> "matches" ->
   forall rule, Rule.operator rule = op ->
                exists text, describeExpectation rule = JSString text).
Proof.
  assert (Hsame : switch_case op = None <-> assoc operator_symbols op = None).
  { unfold switch_case. rewrite lookup_operator_None_iff, assoc_None_iff.
    reflexivity. }
  split; [exact Hsame|]. split; [|split].
  - intros Hs. unfold formatOperator, lookup_or_self.
    destruct (assoc operator_symbols op) as [symbol|] eqn:Ea; [|tauto].
    assert (Hne : symbol <> "").
    { clear - Ea. unfold operator_symbols in Ea. cbn [assoc] in Ea.
      repeat match type of Ea with
             | (if ?c then _ else _) = _ =>
                 destruct c; [injection Ea as <-; discriminate|]
             end.
      discriminate. }
    destruct (String.eqb_spec symbol ""); [contradiction|]. eauto.
  - intros Hs Hi. unfold formatOperator, lookup_or_self.
    apply Hsame in Hs. rewrite Hs, Hi. reflexivity.
  - intros Hs Hm rule <-. unfold describeExpectation.
    destruct (switch_case (Rule.operator rule)) as [[]|] eqn:Es;
      try (eexists; reflexivity); [|contradiction].
    apply switch_case_matches in Es. contradiction.
Qed.
End OperatorTables.

(** ** The further properties at concrete inputs *)

Lemma rules_are_judged_one_after_the_other_witness :
  exists result engine',
    validate (H:=literal_host) fresh_engine noon
      (with_rules ([means_test] ++ [optional_with_alternative]) (ruleset_of []))
      low_income_senior = Normal (result, engine') /\
    map Passed.id (Result.passed result) = [Some "income"] /\
    map Failed.id (Result.failed result) = [Some "working-age"] /\
    Result.valid result = false.
Proof.
  destruct (rules_are_judged_one_after_the_other (H:=literal_host)
              fresh_engine noon (ruleset_of []) low_income_senior
              [means_test] [optional_with_alternative] _ _ _ _ eq_refl eq_refl)
    as (result & engine' & Hv & P & F & _ & _ & V).
  exists result, engine'. split; [exact Hv|].
  rewrite P, F, V. repeat split.
Defined.

Lemma errors_follow_failed_witness :
  exists result engine',
    validate (H:=literal_host) fresh_engine noon (ruleset_of family)
      low_income_senior = Normal (result, engine') /\
    map Error.field (Result.errors result) = ["age"] /\
    map Error.field (Result.errors result) =
      map Failed.key (Result.failed result) /\
    hasError result "age" =
      existsb (fun f => Failed.key f =? "age") (Result.failed result).
Proof.
  do 2 eexists. split; [reflexivity|]. split; [reflexivity|].
  destruct (errors_follow_failed (H:=literal_host) fresh_engine noon
              (ruleset_of family) low_income_senior _ _ eq_refl)
    as (L & _ & Hh).
  split; [exact L|apply Hh].
Defined.

Lemma valid_iff_no_visited_rule_fails_witness :
  exists result engine',
    validate (H:=literal_host) fresh_engine noon (ruleset_of family)
      low_income_senior = Normal (result, engine') /\
    outcome (H:=literal_host) working_age low_income_senior = Normal Fails /\
    Result.valid result <> true.
Proof.
  do 2 eexists. split; [reflexivity|]. split; [reflexivity|].
  intros Hvalid.
  apply (valid_iff_no_visited_rule_fails (H:=literal_host) fresh_engine noon
           (ruleset_of family) low_income_senior _ _ eq_refl) in Hvalid.
  cbn in Hvalid. inversion Hvalid as [|? ? _ Hrest].
  inversion Hrest as [|? ? Hw _]. apply Hw. reflexivity.
Defined.

Lemma optional_rules_never_invalidate_witness :
  exists result engine',
    validate (H:=literal_host) fresh_engine noon
      (ruleset_of [optional_with_alternative])
      [("hours_worked", JSNumber (num 10))] = Normal (result, engine') /\
    condition_failed (H:=literal_host) optional_with_alternative
      [("hours_worked", JSNumber (num 10))] /\
    Result.valid result = true /\ Result.failed result = [] /\
    Result.errors result = [].
Proof.
  do 2 eexists. split; [reflexivity|]. split; [reflexivity|].
  apply (optional_rules_never_invalidate (H:=literal_host) fresh_engine noon
           (ruleset_of [optional_with_alternative])
           [("hours_worked", JSNumber (num 10))] _ _ eq_refl).
  cbn. repeat constructor.
Defined.


Lemma missing_key_is_never_evaluated_witness :
  evaluateRule (H:=literal_host) (zip_pattern "(") []
    (initial_result noon (ruleset_of []) []) =
  Normal (Result.push_skipped (skipped_record (zip_pattern "("))
            (initial_result noon (ruleset_of []) [])) /\
  evaluateRule (H:=literal_host)
    (simple_rule "no-record" "conviction" "not_exists" JSUndefined None) []
    (initial_result noon (ruleset_of []) []) =
  Normal (Result.push_passed
            (passed_record
               (simple_rule "no-record" "conviction" "not_exists" JSUndefined None)
               JSUndefined)
            (initial_result noon (ruleset_of []) [])).
Proof.
  split.
  - apply (missing_key_is_never_evaluated (H:=literal_host) (zip_pattern "(") []
             (initial_result noon (ruleset_of []) []) eq_refl). discriminate.
  - apply (missing_key_is_never_evaluated (H:=literal_host)
             (simple_rule "no-record" "conviction" "not_exists" JSUndefined None)
             [] (initial_result noon (ruleset_of []) []) eq_refl). reflexivity.
Defined.

Lemma records_echo_the_attributes_witness :
  exists result engine',
    validate (H:=literal_host) fresh_engine noon (ruleset_of family)
      low_income_senior = Normal (result, engine') /\
    map Passed.value (Result.passed result) = [JSNumber (num 40)] /\
    (forall f, In f (Result.failed result) ->
               Failed.value f = get low_income_senior (Failed.key f)).
Proof.
  do 2 eexists. split; [reflexivity|]. split; [reflexivity|].
  apply (records_echo_the_attributes (H:=literal_host) fresh_engine noon
           (ruleset_of family) low_income_senior _ _ eq_refl).
Defined.

Lemma outcomes_bounded_by_tree_size_witness :
  exists result engine',
    validate (H:=literal_host) fresh_engine noon (ruleset_of family)
      low_income_senior = Normal (result, engine') /\
    list_sum (map tree_size family) = 3%nat /\
    (length (Result.passed result) + length (Result.failed result)
     + length (Result.skipped result) <= 3)%nat.
Proof.
  do 2 eexists. split; [reflexivity|]. split; [reflexivity|].
  apply (outcomes_bounded_by_tree_size (H:=literal_host) fresh_engine noon
           (ruleset_of family) low_income_senior _ _ eq_refl).
Defined.

Lemma logged_event_is_consistent_witness :
  exists result engine',
    validate (H:=literal_host) (constructor None) noon (ruleset_of family)
      low_income_senior = Normal (result, engine') /\
    getEventLog engine' = [createEvent result] /\
    Event.failed_count (createEvent result) =
      length (Event.errors (createEvent result)) /\
    getEventLog (clearEventLog engine') = [].
Proof.
  do 2 eexists. split; [reflexivity|].
  destruct (logged_event_is_consistent (H:=literal_host) (constructor None) noon
              (ruleset_of family) low_income_senior _ _ eq_refl)
    as (Hlog & _ & Hcount & _).
  split; [exact Hlog|]. split; [exact Hcount|reflexivity].
Defined.

Lemma outcome_does_not_depend_on_engine_or_clock_witness :
  exists result1 engine1 result2 engine2,
    validate (H:=literal_host) fresh_engine noon (ruleset_of family)
      low_income_senior = Normal (result1, engine1) /\
    validate (H:=literal_host) engine1
      {| startTime := 5000; isoTime := "2025-06-30T08:00:00.000Z";
         endTime := 5009 |}
      (ruleset_of family) low_income_senior = Normal (result2, engine2) /\
    Result.passed result2 = Result.passed result1 /\
    Result.failed result2 = Result.failed result1 /\
    Result.valid result2 = Result.valid result1 /\
    length (getEventLog engine2) = 2%nat.
Proof.
  do 2 eexists.
  destruct (outcome_does_not_depend_on_engine_or_clock (H:=literal_host)
              fresh_engine noon
              (snd (match validate (H:=literal_host) fresh_engine noon
                            (ruleset_of family) low_income_senior with
                    | Normal p => p
                    | Throw _ => (initial_result noon (ruleset_of []) [],
                                  fresh_engine)
                    end))
              {| startTime := 5000; isoTime := "2025-06-30T08:00:00.000Z";
                 endTime := 5009 |}
              (ruleset_of family) low_income_senior _ _ eq_refl)
    as (result2 & engine2 & Hv & P & F & _ & _ & V).
  exists result2, engine2. split; [reflexivity|]. split; [exact Hv|].
  split; [exact P|]. split; [exact F|]. split; [exact V|].
  cbn in Hv. injection Hv as _ <-. reflexivity.
Defined.

Lemma getError_agrees_with_hasError_witness :
  getError three_errors "age" = Some "too young" /\
  hasError three_errors "age" = true /\
  getError three_errors "zip" = None /\
  exists result engine',
    validate (H:=literal_host) fresh_engine noon (ruleset_of family)
      low_income_senior = Normal (result, engine') /\
    hasError result "age" = true /\
    exists m, getError result "age" = Some m.
Proof.
  destruct (getError_agrees_with_hasError (H:=literal_host))
    as (Hsome & Hnone & Hvalidate).
  split; [reflexivity|]. split.
  - apply (Hsome three_errors "age" "too young"). reflexivity.
  - split; [apply Hnone; reflexivity|].
    do 2 eexists. split; [reflexivity|]. split; [reflexivity|].
    apply (Hvalidate fresh_engine noon (ruleset_of family) low_income_senior
             _ _ "age" eq_refl). reflexivity.
Defined.

Lemma getErrorsMap_groups_messages_by_field_witness :
  (exists map,
      getErrorsMap (H:=standard_prototype) three_errors = Some map /\
      assoc map "age" = Some ["too young"; "too old"] /\
      assoc map "income" = Some ["too high"] /\
      assoc map "zip" = None) /\
  getErrorsMap (H:=standard_prototype)
    (Result.make false None "" [] [Error.make "constructor" "bad"]
       [] [] [] (ruleset_of []) None) = None.
Proof.
  split.
  - destruct (getErrorsMap_groups_messages_by_field (H:=standard_prototype)
                three_errors) as [Hmap _].
    destruct Hmap as (map & E & Hassoc); [repeat constructor|].
    exists map. split; [exact E|]. rewrite !Hassoc. repeat split.
  - apply (getErrorsMap_groups_messages_by_field (H:=standard_prototype)).
    left. reflexivity.
Defined.

Lemma getValidationStatus_reports_the_outcome_witness :
  exists result engine',
    validate (H:=literal_host) fresh_engine noon (ruleset_of family)
      low_income_senior = Normal (result, engine') /\
    getValidationStatus (Some result) (Some "income") = Some "passed" /\
    getValidationStatus (Some result) (Some "working-age") = Some "failed" /\
    getValidationStatus (Some result) (Some "work") = None /\
    getValidationStatus (Some result) None = None.
Proof.
  do 2 eexists. split; [reflexivity|].
  destruct (getValidationStatus_reports_the_outcome (H:=literal_host)
              fresh_engine noon (ruleset_of family) low_income_senior _ _ eq_refl)
    as (Hvisited & Hother).
  { cbn. repeat constructor; cbn; intuition discriminate. }
  split; [reflexivity|]. split; [reflexivity|]. split; [reflexivity|].
  apply Hother. cbn. intuition discriminate.
Defined.

Lemma compact_view_status_follows_valid_witness :
  exists result engine',
    validate (H:=literal_host) fresh_engine noon (ruleset_of family)
      low_income_senior = Normal (result, engine') /\
    Result.valid result = false /\
    renderCompactView_status (Some result) = "ineligible".
Proof.
  do 2 eexists. split; [reflexivity|]. split; [reflexivity|].
  destruct (compact_view_status_follows_valid (H:=literal_host)) as [_ Hst].
  apply (Hst fresh_engine noon (ruleset_of family) low_income_senior _ _ eq_refl).
  reflexivity.
Defined.

Lemma every_status_has_a_label_witness :
  getValidationStatus
    (Some (Result.push_skipped (skipped_record age_rule)
             (initial_result noon (ruleset_of [age_rule]) [])))
    None = Some "skipped" /\
  exists label,
    formatStatus (H:=standard_prototype) "skipped" = Some label /\
    In label ["Met"; "Not Met"; "Skipped"].
Proof.
  split; [reflexivity|].
  apply (every_status_has_a_label (H:=standard_prototype)
           (Some (Result.push_skipped (skipped_record age_rule)
                    (initial_result noon (ruleset_of [age_rule]) [])))
           None "skipped").
  reflexivity.
Defined.

Lemma formatNumber_labels_are_distinct_witness :
  formatNumber 4 2 = Some "(iv)" /\
  formatNumber (2 + 2) 2 = Some "(iv)" /\
  4%nat = (2 + 2)%nat.
Proof.
  split; [reflexivity|]. split; [reflexivity|].
  apply (formatNumber_labels_are_distinct 2 4 (2 + 2) "(iv)" eq_refl eq_refl).
Defined.

(** ** Unknown operators *)

Section UnknownOperator.
Context `{Host}.

Lemma validate_append engine clock ruleset attributes rules1 rules2
      result1 engine1 result2 engine2 :
  validate engine clock (with_rules rules1 ruleset) attributes =
    Normal (result1, engine1) ->
  validate engine clock (with_rules rules2 ruleset) attributes =
    Normal (result2, engine2) ->
  exists result engine',
    validate engine clock (with_rules (rules1 ++ rules2) ruleset) attributes =
      Normal (result, engine') /\
    Result.passed result = (Result.passed result1 ++ Result.passed result2)%list /\
    Result.failed result = (Result.failed result1 ++ Result.failed result2)%list /\
    Result.skipped result = (Result.skipped result1 ++ Result.skipped result2)%list /\
    Result.errors result = (Result.errors result1 ++ Result.errors result2)%list.
Proof.
  intros H1 H2.
  pose proof (validate_lists _ _ _ _ _ _ H1) as (P1 & F1 & S1 & E1 & _).
  pose proof (validate_lists _ _ _ _ _ _ H2) as (P2 & F2 & S2 & E2 & _).
  apply validate_extends in H1 as (w1 & W1 & _).
  apply validate_extends in H2 as (w2 & W2 & _).
  cbn [with_rules Ruleset.rules] in *.
  destruct (evaluateRules_restart attributes rules1 _ _
              (initial_result clock (with_rules (rules1 ++ rules2) ruleset) attributes)
              W1) as [v1 Ev1].
  destruct (evaluateRules_restart attributes rules2 _ _ v1 W2) as [v2 Ev2].
  destruct (validate_of_walk engine clock
              (with_rules (rules1 ++ rules2) ruleset) attributes v2)
    as (result & engine' & Hv).
  { cbn [with_rules Ruleset.rules]. rewrite evaluateRules_app, Ev1. exact Ev2. }
  exists result, engine'. split; [exact Hv|].
  pose proof (validate_lists _ _ _ _ _ _ Hv) as (P & F & S & E & _).
  cbn [with_rules Ruleset.rules] in *.
  rewrite !flat_map_app in *.
  rewrite P, F, S, E, P1, P2, F1, F2, S1, S2, E1, E2. auto.
Qed.

Lemma unknown_operator_evaluateRule rule attributes result alternative :
  switch_case (Rule.operator rule) = None ->
  anyPassed rule attributes = Normal alternative ->
  evaluateRule rule attributes result =
  Normal
    (if missing rule attributes then
       if requirement_is rule "optional" then result
       else Result.push_skipped (skipped_record rule) result
     else if alternative then
       Result.push_passed
         (alternative_record rule (get attributes (Rule.key rule))) result
     else record_failure rule (get attributes (Rule.key rule)) result).
Proof.
  intros Hop Ha. rewrite evaluateRule_unfold. cbv zeta.
  destruct (missing rule attributes).
  - destruct (requirement_is rule "optional"); reflexivity.
  - unfold evaluateCondition. rewrite Hop. cbn. rewrite Ha. cbn.
    destruct alternative; reflexivity.
Qed.

(** C7 (amended).  A rule whose operator is none of the twelve has a
    condition that evaluates to [false] and never throws.  When
    consulting its alternatives returns, [evaluateRule] returns on it and
    records it as it does any failed condition: skipped or dropped when
    its attribute is missing, passed when an alternative stands in for
    it, and otherwise failed, or dropped when optional; and [validate]
    walks the rules before and after it as it does without it, the
    records of the rule standing between theirs. *)
Theorem unknown_operator_is_a_failed_condition rule :
  ~ In (Rule.operator rule) recognized_operators ->
  (forall value attributes,
      evaluateCondition rule value attributes = Normal (JSBool false)) /\
  (forall attributes result alternative,
      anyPassed rule attributes = Normal alternative ->
      evaluateRule rule attributes result =
      Normal
        (if missing rule attributes then
           if requirement_is rule "optional" then result
           else Result.push_skipped (skipped_record rule) result
         else if alternative then
           Result.push_passed
             (alternative_record rule (get attributes (Rule.key rule))) result
         else record_failure rule (get attributes (Rule.key rule)) result)) /\
  (forall engine clock ruleset attributes before after alternative
          result1 engine1 result2 engine2,
      anyPassed rule attributes = Normal alternative ->
      validate engine clock (with_rules before ruleset) attributes =
        Normal (result1, engine1) ->
      validate engine clock (with_rules after ruleset) attributes =
        Normal (result2, engine2) ->
      exists own engine0 result engine',
        validate engine clock (with_rules [rule] ruleset) attributes =
          Normal (own, engine0) /\
        validate engine clock (with_rules (before ++ rule :: after) ruleset)
          attributes = Normal (result, engine') /\
        Result.passed result =
          (Result.passed result1 ++ Result.passed own ++ Result.passed result2)%list /\
        Result.failed result =
          (Result.failed result1 ++ Result.failed own ++ Result.failed result2)%list /\
        Result.skipped result =
          (Result.skipped result1 ++ Result.skipped own
           ++ Result.skipped result2)%list /\
        Result.errors result =
          (Result.errors result1 ++ Result.errors own ++ Result.errors result2)%list).
Proof.
  intros Hop. apply switch_case_unrecognized in Hop.
  split; [|split].
  - intros. unfold evaluateCondition. rewrite Hop. reflexivity.
  - intros attributes result alternative Ha.
    now apply unknown_operator_evaluateRule.
  - intros engine clock ruleset attributes before after alternative
           result1 engine1 result2 engine2 Ha H1 H2.
    destruct (validate_of_walk engine clock (with_rules [rule] ruleset) attributes
                (if missing rule attributes then
                   if requirement_is rule "optional"
                   then initial_result clock (with_rules [rule] ruleset) attributes
                   else Result.push_skipped (skipped_record rule)
                          (initial_result clock (with_rules [rule] ruleset) attributes)
                 else if alternative then
                   Result.push_passed
                     (alternative_record rule (get attributes (Rule.key rule)))
                     (initial_result clock (with_rules [rule] ruleset) attributes)
                 else record_failure rule (get attributes (Rule.key rule))
                        (initial_result clock (with_rules [rule] ruleset) attributes)))
      as (own & engine0 & Hown).
    { cbn [with_rules Ruleset.rules evaluateRules].
      rewrite (unknown_operator_evaluateRule rule attributes _ alternative Hop Ha).
      reflexivity. }
    destruct (validate_append engine clock ruleset attributes [rule] after
                _ _ _ _ Hown H2) as (r2 & e2 & Hv2 & P2 & F2 & S2 & E2).
    destruct (validate_append engine clock ruleset attributes before
                ([rule] ++ after) _ _ _ _ H1 Hv2)
      as (result & engine' & Hv & P & F & S & E).
    exists own, engine0, result, engine'.
    split; [exact Hown|]. split; [exact Hv|].
    rewrite P, F, S, E, P2, F2, S2, E2. auto.
Qed.
End UnknownOperator.

(** C7, counterexample: the operator is unknown and its condition is
    false, but the rule's alternative holds a pattern that does not
    compile; [validate] throws and the rule after it is not evaluated. *)
Lemma unknown_operator_with_throwing_alternative :
  ~ In (Rule.operator bogus_with_broken_alternative) recognized_operators /\
  evaluateCondition (H:=literal_host) bogus_with_broken_alternative
    (get retiree "age") retiree = Normal (JSBool false) /\
  validate (H:=literal_host) fresh_engine noon
    (ruleset_of [bogus_with_broken_alternative; age_rule]) retiree =
  Throw (SyntaxError "(").
Proof.
  split; [cbn; intuition discriminate|]. split; reflexivity.
Qed.

Lemma unknown_operator_is_a_failed_condition_witness :
  ~ In (Rule.operator bogus_rule) recognized_operators /\
  evaluateCondition (H:=literal_host) bogus_rule (JSNumber (num 65)) retiree =
    Normal (JSBool false) /\
  exists result engine',
    validate (H:=literal_host) fresh_engine noon
      (with_rules ([zip_pattern "9"] ++ bogus_rule :: [age_rule]) (ruleset_of []))
      retiree = Normal (result, engine') /\
    map Passed.key (Result.passed result) = ["zip"; "age"] /\
    map Failed.id (Result.failed result) = [Some "bogus"].
Proof.
  assert (Hop : ~ In (Rule.operator bogus_rule) recognized_operators)
    by (cbn; intuition discriminate).
  destruct (unknown_operator_is_a_failed_condition (H:=literal_host)
              bogus_rule Hop) as (Hc & _ & Hcont).
  split; [exact Hop|]. split; [apply Hc|].
  destruct (Hcont fresh_engine noon (ruleset_of []) retiree
              [zip_pattern "9"] [age_rule] false _ _ _ _ eq_refl eq_refl eq_refl)
    as (own & engine0 & result & engine' & Hown & Hv & P & F & _).
  exists result, engine'. split; [exact Hv|].
  rewrite P, F. cbn in Hown. injection Hown as <- _. split; reflexivity.
Defined.

(** ** The comparison operators by name *)

Lemma SFcompare_refl x : x <> S754_nan -> SFcompare x x = Some Eq.
Proof.
  destruct x as [s|s| |s m e]; try congruence; intros _; cbn.
  - reflexivity.
  - destruct s; reflexivity.
  - rewrite Z.compare_refl, Pos.compare_cont_refl. destruct s; reflexivity.
Qed.

Lemma SFleb_refl_or_nan x y : SFleb x x && SFleb x y = SFleb x y.
Proof.
  destruct (SFleb x y) eqn:E; [|apply andb_false_r].
  destruct (SFleb_not_nan _ _ E) as [Hx _]. rewrite (SFleb_refl x Hx). reflexivity.
Qed.

Lemma SFleb_nan_or_refl x y : SFleb x y && SFleb y y = SFleb x y.
Proof.
  destruct (SFleb x y) eqn:E; [|reflexivity].
  destruct (SFleb_not_nan _ _ E) as [_ Hy]. rewrite (SFleb_refl y Hy). reflexivity.
Qed.

Section Inclusive.
Context `{Host}.

Lemma comparison_table rule value attributes :
  let c := SFcompare (ToNumber value) (ToNumber (Rule.value rule)) in
  (Rule.operator rule = "less_than" ->
   evaluateCondition rule value attributes =
   Normal (JSBool match c with Some Lt => true | _ => false end)) /\
  (Rule.operator rule = "less_than_or_equal" ->
   evaluateCondition rule value attributes =
   Normal (JSBool match c with Some Lt | Some Eq => true | _ => false end)) /\
  (Rule.operator rule = "greater_than" ->
   evaluateCondition rule value attributes =
   Normal (JSBool match c with Some Gt => true | _ => false end)) /\
  (Rule.operator rule = "greater_than_or_equal" ->
   evaluateCondition rule value attributes =
   Normal (JSBool match c with Some Gt | Some Eq => true | _ => false end)).
Proof.
  cbv zeta. unfold evaluateCondition.
  repeat split; intros ->; cbn; unfold js_lt, js_le, js_gt, js_ge, SFltb, SFleb;
    try reflexivity;
    rewrite (SFcompare_antisym (ToNumber value) (ToNumber (Rule.value rule)));
    destruct (SFcompare (ToNumber value) (ToNumber (Rule.value rule))) as [[]|];
    reflexivity.
Qed.

(** C8 (amended).  The rule [age <= 65] passes at 65 and fails at 66 with
    the expectation ["<= 65"].  Each comparison operator is the relation
    of its name on the numbers that the operands convert to: at equal
    numbers [less_than] and [greater_than] are false and
    [less_than_or_equal] and [greater_than_or_equal] are true.  [between]
    holds exactly when the value is at least [min] and at most [max]; at
    either bound it holds exactly when [min] is at most [max]. *)
Theorem comparisons_are_inclusive :
  (forall engine clock,
      exists result engine',
        validate engine clock (ruleset_of [age_rule])
                 [("age", JSNumber (num 65))] = Normal (result, engine') /\
        Result.passed result =
          [passed_record age_rule (JSNumber (num 65))] /\
        Result.failed result = [] /\
        Result.valid result = true) /\
  (forall engine clock,
      exists result engine',
        validate engine clock (ruleset_of [age_rule])
                 [("age", JSNumber (num 66))] = Normal (result, engine') /\
        Result.passed result = [] /\
        map Failed.expected (Result.failed result) = [JSString "<= 65"] /\
        Result.valid result = false) /\
  (forall rule value attributes,
      let c := SFcompare (ToNumber value) (ToNumber (Rule.value rule)) in
      (Rule.operator rule = "less_than" ->
       evaluateCondition rule value attributes =
       Normal (JSBool match c with Some Lt => true | _ => false end)) /\
      (Rule.operator rule = "less_than_or_equal" ->
       evaluateCondition rule value attributes =
       Normal (JSBool match c with Some Lt | Some Eq => true | _ => false end)) /\
      (Rule.operator rule = "greater_than" ->
       evaluateCondition rule value attributes =
       Normal (JSBool match c with Some Gt => true | _ => false end)) /\
      (Rule.operator rule = "greater_than_or_equal" ->
       evaluateCondition rule value attributes =
       Normal (JSBool match c with Some Gt | Some Eq => true | _ => false end))) /\
  (forall rule value attributes,
      ToNumber value = ToNumber (Rule.value rule) ->
      ToNumber value <> NaN ->
      (Rule.operator rule = "less_than" ->
       evaluateCondition rule value attributes = Normal (JSBool false)) /\
      (Rule.operator rule = "less_than_or_equal" ->
       evaluateCondition rule value attributes = Normal (JSBool true)) /\
      (Rule.operator rule = "greater_than" ->
       evaluateCondition rule value attributes = Normal (JSBool false)) /\
      (Rule.operator rule = "greater_than_or_equal" ->
       evaluateCondition rule value attributes = Normal (JSBool true))) /\
  (forall rule value attributes,
      Rule.operator rule = "between" ->
      evaluateCondition rule value attributes =
      Normal
        (JSBool
           (match SFcompare (ToNumber value) (ToNumber (Rule.min rule)) with
            | Some Gt | Some Eq => true
            | _ => false
            end
            && match SFcompare (ToNumber value) (ToNumber (Rule.max rule)) with
               | Some Lt | Some Eq => true
               | _ => false
               end)) /\
      (ToNumber value = ToNumber (Rule.min rule) \/
       ToNumber value = ToNumber (Rule.max rule) ->
       evaluateCondition rule value attributes =
       Normal (JSBool (js_le (ToNumber (Rule.min rule))
                             (ToNumber (Rule.max rule)))))).
Proof.
  split; [|split; [|split; [|split]]].
  - intros. do 2 eexists. split; [reflexivity|]. repeat split.
  - intros. do 2 eexists. split; [reflexivity|]. repeat split.
  - exact comparison_table.
  - intros rule value attributes Heq Hnan.
    pose proof (comparison_table rule value attributes) as Ht. cbv zeta in Ht.
    rewrite <- Heq, (SFcompare_refl _ Hnan) in Ht. exact Ht.
  - intros rule value attributes Hop. unfold evaluateCondition. rewrite Hop. cbn.
    unfold js_ge, js_le. split.
    + unfold SFleb at 1.
      rewrite (SFcompare_antisym (ToNumber value) (ToNumber (Rule.min rule))).
      unfold SFleb.
      destruct (SFcompare (ToNumber value) (ToNumber (Rule.min rule))) as [[]|];
        reflexivity.
    + intros [-> | ->].
      * rewrite SFleb_refl_or_nan. reflexivity.
      * rewrite SFleb_nan_or_refl. reflexivity.
Qed.
End Inclusive.

(** C8, counterexample: a [between] rule with [min] 49 and [max] 18
    passes at neither of its bounds. *)
Lemma inverted_range_fails_at_its_bounds :
  Rule.operator inverted_range = "between" /\
  Rule.min inverted_range = JSNumber (num 49) /\
  Rule.max inverted_range = JSNumber (num 18) /\
  evaluateCondition (H:=literal_host) inverted_range (JSNumber (num 49)) [] =
    Normal (JSBool false) /\
  evaluateCondition (H:=literal_host) inverted_range (JSNumber (num 18)) [] =
    Normal (JSBool false).
Proof. repeat split. Qed.

Lemma comparisons_are_inclusive_witness :
  evaluateCondition (H:=literal_host) over_65 (JSNumber (num 65)) [] =
    Normal (JSBool false) /\
  evaluateCondition (H:=literal_host) age_rule (JSNumber (num 65)) [] =
    Normal (JSBool true) /\
  js_le (ToNumber (H:=literal_host) (Rule.min working_age))
        (ToNumber (H:=literal_host) (Rule.max working_age)) = true /\
  evaluateCondition (H:=literal_host) working_age (JSNumber (num 18))
    [("age", JSNumber (num 18))] = Normal (JSBool true) /\
  evaluateCondition (H:=literal_host) working_age (JSNumber (num 49))
    [("age", JSNumber (num 49))] = Normal (JSBool true).
Proof.
  destruct (comparisons_are_inclusive (H:=literal_host))
    as (_ & _ & _ & Heq & Hb).
  destruct (Heq over_65 (JSNumber (num 65)) [] eq_refl ltac:(discriminate))
    as (_ & _ & Hgt & _).
  destruct (Heq age_rule (JSNumber (num 65)) [] eq_refl ltac:(discriminate))
    as (_ & Hle & _).
  destruct (Hb working_age (JSNumber (num 18)) [("age", JSNumber (num 18))]
              eq_refl) as [_ Hlow].
  destruct (Hb working_age (JSNumber (num 49)) [("age", JSNumber (num 49))]
              eq_refl) as [_ Hhigh].
  split; [exact (Hgt eq_refl)|]. split; [exact (Hle eq_refl)|].
  split; [reflexivity|]. split.
  - exact (Hlow (or_introl eq_refl)).
  - exact (Hhigh (or_intror eq_refl)).
Defined.
